(** * LatinIME native proximity model: [proximity_info.cpp], [unigram_dictionary.h]

    A shallow embedding of [latinime::ProximityInfo] (the key geometry, the
    proximity grid and the candidate-code resolver) and of the error
    tolerances of [latinime::UnigramDictionary], with the properties the
    specification states about them.

    Conventions of the embedding.
    - A C++ [int] / [int32_t] is a [Z]; arithmetic on values goes through
      [Int32], which writes the 32-bit two's-complement wrap-around out.
    - An array owned by the object is a [list Z]; reading it outside its
      bounds is undefined in C++ and is a [Fault] here.  Division by zero is
      a [Fault] as well, and so is the one quotient that does not fit, the
      least [int] divided by -1.
    - A [float] array is the list of the 32-bit patterns of its entries:
      [memcpy] and [memset] are all that happens to one here.
    - The caller's output buffer [int *inputCodes] has no length the callee
      could know: it is a finite map from offsets to values
      ([gmap Z Z]), and a write at any offset is recorded in it.
    - [assert(false)] ends the run with [AssertFailed] unless [NDEBUG].
    - [AKLOGI] appends a message to a log. *)

From Stdlib Require Import ZArith Lia Bool.
From stdpp Require Import base gmap list strings.

Local Open Scope Z_scope.

(** ** 32-bit signed arithmetic *)

Module Int32.

Definition min_signed : Z := - 2 ^ 31.
Definition max_signed : Z := 2 ^ 31 - 1.

Definition in_range (z : Z) : Prop := min_signed <= z <= max_signed.

(** The representative of [z] modulo 2^32 in the signed range. *)
Definition wrap (z : Z) : Z := (z + 2 ^ 31) mod 2 ^ 32 - 2 ^ 31.

Definition add (a b : Z) : Z := wrap (a + b).
Definition sub (a b : Z) : Z := wrap (a - b).
Definition mul (a b : Z) : Z := wrap (a * b).

(** C++ [/] truncates toward zero; a zero divisor is undefined, and so is
    the quotient of [min_signed] by -1, which is not representable (both
    trap on the usual hardware). *)
Definition div (a b : Z) : option Z :=
  if b =? 0 then None
  else if (a =? min_signed) && (b =? -1) then None
  else Some (wrap (Z.quot a b)).

(** The quotient of [a] by [b] is defined. *)
Definition div_defined (a b : Z) : Prop :=
  b <> 0 /\ (a = min_signed -> b <> -1).

(** Conversion to [unsigned short]. *)
Definition to_uint16 (z : Z) : Z := z mod 2 ^ 16.

End Int32.

(** ** Outcomes and diagnostics *)

Inductive outcome (A : Type) : Type :=
| Returned (a : A)      (* the function returned [a] *)
| AssertFailed          (* [assert(false)] was reached with assertions on *)
| Fault.                (* out-of-bounds access, undefined division, failed [new] *)

Arguments Returned {A} a.
Arguments AssertFailed {A}.
Arguments Fault {A}.

(** The messages [proximity_info.cpp] hands to [AKLOGI] in the functions
    modelled below, with their arguments. *)
Inductive log_msg : Type :=
| LogIllegalCoordinates (x y : Z)     (* "HasSpaceProximity: Illegal coordinates (%d, %d)" *)
| LogStartIndex (startIndex x y : Z) (* "hasSpaceProximity: index %d, %d, %d" *)
| LogEntry (c : Z)                   (* "Index: %d" *)
| LogCreate (proximityGridLength : Z). (* "Create proximity info array %d" *)

(** ** The object *)

(** The members of [ProximityInfo] the constructor sets.  The sweet-spot
    arrays are [float]s, held as bit patterns; no function modelled here
    reads them. *)
Record ProximityInfo : Type := {
  MAX_PROXIMITY_CHARS_SIZE : Z;
  KEYBOARD_WIDTH : Z;
  KEYBOARD_HEIGHT : Z;
  GRID_WIDTH : Z;
  GRID_HEIGHT : Z;
  MOST_COMMON_KEY_WIDTH_SQUARE : Z;
  CELL_WIDTH : Z;
  CELL_HEIGHT : Z;
  KEY_COUNT : Z;
  HAS_TOUCH_POSITION_CORRECTION_DATA : bool;
  mLocaleStr : string;
  mProximityCharsArray : list Z;
  mKeyXCoordinates : list Z;
  mKeyYCoordinates : list Z;
  mKeyWidths : list Z;
  mKeyHeights : list Z;
  mKeyCharCodes : list Z;
  mSweetSpotCenterXs : list Z;
  mSweetSpotCenterYs : list Z;
  mSweetSpotRadii : list Z;
  mCodeToKeyIndex : list Z
}.

(** What the translation unit takes from headers that are not part of the
    sources at hand: the constants and debug switches of [defines.h] and
    [proximity_info.h], [toBaseLowerCase] of [char_utils.h], the two lookups
    of [AdditionalProximityChars], the inline member [isOnKey] of
    [proximity_info.h], and whether [assert] is compiled out. *)
Class Defines : Type := {
  KEYCODE_SPACE : Z;
  NOT_A_CODE : Z;
  NOT_AN_INDEX : Z;
  ADDITIONAL_PROXIMITY_CHAR_DELIMITER_CODE : Z;
  MAX_CHAR_CODE : Z;
  MAX_KEY_COUNT_IN_A_KEYBOARD : Z;
  DEBUG_DICT : bool;
  DEBUG_PROXIMITY_INFO : bool;
  NDEBUG : bool;
  toBaseLowerCase : Z -> Z;
  getAdditionalCharsSize : string -> Z -> Z;
  getAdditionalChars : string -> Z -> list Z;
  isOnKey : ProximityInfo -> Z -> Z -> Z -> bool
}.

(** [a[i]] for an array owned by the object. *)
Definition read (a : list Z) (i : Z) : option Z :=
  if i <? 0 then None else a !! Z.to_nat i.

(** ** The cursor into the caller's buffer *)

Record cursor : Type := {
  inputCodes : gmap Z Z;
  insertPos : Z
}.

(** [inputCodes[insertPos++] = c] *)
Definition push (st : cursor) (c : Z) : cursor :=
  {| inputCodes := <[insertPos st := c]> (inputCodes st);
     insertPos := insertPos st + 1 |}.

(** Where control is after a statement of [calculateNearbyKeyCodes]: still
    inside the function, or out of it with the buffer as it was left. *)
Inductive flow : Type :=
| Next (st : cursor)
| Stop (m : gmap Z Z) (o : outcome unit).

(** [for (int i = 0; i < n; ++i) body], the counter running over [idx]. *)
Fixpoint for_each (body : Z -> cursor -> flow) (idx : list Z) (st : cursor) : flow :=
  match idx with
  | [] => Next st
  | i :: rest =>
      match body i st with
      | Next st' => for_each body rest st'
      | Stop m o => Stop m o
      end
  end.

(** [for (; k < insertPos; ++k) if (ac == inputCodes[k]) break;] the value
    of [k] after the loop, the counter running over [ks]. *)
Fixpoint scan (m : gmap Z Z) (ac : Z) (ks : list Z) (kend : Z) : option Z :=
  match ks with
  | [] => Some kend
  | k :: rest =>
      match m !! k with
      | None => None
      | Some v => if ac =? v then Some k else scan m ac rest kend
      end
  end.

Section ProximityInfo.

Context `{Defines}.

(** *** [getStartIndexFromCoordinates] *)
Definition getStartIndexFromCoordinates (pi : ProximityInfo) (x y : Z) : option Z :=
  match Int32.div y (CELL_HEIGHT pi), Int32.div x (CELL_WIDTH pi) with
  | Some row, Some col =>
      Some (Int32.mul (Int32.add (Int32.mul row (GRID_WIDTH pi)) col)
                      (MAX_PROXIMITY_CHARS_SIZE pi))
  | _, _ => None
  end.

(** [assert(false)] *)
Definition assert_false {A : Type} (k : outcome A) : outcome A :=
  if NDEBUG then k else AssertFailed.

(** *** [hasSpaceProximity] *)
Fixpoint hasSpaceProximity_loop (pi : ProximityInfo) (startIndex : Z) (idx : list Z)
  : list log_msg * outcome bool :=
  match idx with
  | [] => ([], Returned false)
  | i :: rest =>
      match read (mProximityCharsArray pi) (Int32.add startIndex i) with
      | None => ([], Fault)
      | Some c =>
          let l := if DEBUG_PROXIMITY_INFO then [LogEntry c] else [] in
          if c =? KEYCODE_SPACE then (l, Returned true)
          else
            let '(l', r) := hasSpaceProximity_loop pi startIndex rest in
            (l ++ l', r)
      end
  end.

Definition hasSpaceProximity (pi : ProximityInfo) (x y : Z) : list log_msg * outcome bool :=
  if (x <? 0) || (y <? 0) then
    if DEBUG_DICT then ([LogIllegalCoordinates x y], assert_false (Returned false))
    else ([], Returned false)
  else
    match getStartIndexFromCoordinates pi x y with
    | None => ([], Fault)
    | Some startIndex =>
        let l := if DEBUG_PROXIMITY_INFO then [LogStartIndex startIndex x y] else [] in
        let '(l', r) :=
          hasSpaceProximity_loop pi startIndex (seqZ 0 (MAX_PROXIMITY_CHARS_SIZE pi)) in
        (l ++ l', r)
    end.

(** *** [squaredDistanceToEdge] *)
Definition squaredDistanceToEdge (pi : ProximityInfo) (keyId x y : Z) : option Z :=
  if keyId <? 0 then Some 1 (* [return true;] from a function returning [int] *)
  else
    match read (mKeyXCoordinates pi) keyId, read (mKeyYCoordinates pi) keyId,
          read (mKeyWidths pi) keyId, read (mKeyHeights pi) keyId with
    | Some left', Some top, Some width, Some height =>
        let right' := Int32.add left' width in
        let bottom := Int32.add top height in
        let edgeX := if x <? left' then left' else if x >? right' then right' else x in
        let edgeY := if y <? top then top else if y >? bottom then bottom else y in
        let dx := Int32.sub x edgeX in
        let dy := Int32.sub y edgeY in
        Some (Int32.add (Int32.mul dx dx) (Int32.mul dy dy))
    | _, _, _, _ => None
    end.

(** *** [getKeyIndex] *)
Definition getKeyIndex (pi : ProximityInfo) (c : Z) : option Z :=
  if KEY_COUNT pi =? 0 then Some NOT_AN_INDEX
  else
    let baseLowerC := Int32.to_uint16 (toBaseLowerCase c) in
    if baseLowerC >? MAX_CHAR_CODE then Some NOT_AN_INDEX
    else read (mCodeToKeyIndex pi) baseLowerC.

(** *** [calculateNearbyKeyCodes] *)

(** [if (insertPos >= MAX_PROXIMITY_CHARS_SIZE) { if (DEBUG_DICT) { assert(false); } return; }] *)
Definition return_if_full (pi : ProximityInfo) (st : cursor) : flow :=
  if insertPos st >=? MAX_PROXIMITY_CHARS_SIZE pi then
    Stop (inputCodes st)
         (if DEBUG_DICT then assert_false (Returned tt) else Returned tt)
  else Next st.

(** The body of the loop over the grid cell. *)
Definition grid_body (pi : ProximityInfo) (x y primaryKey startIndex : Z)
    (i : Z) (st : cursor) : flow :=
  match read (mProximityCharsArray pi) (Int32.add startIndex i) with
  | None => Stop (inputCodes st) Fault
  | Some c =>
      if (c <? KEYCODE_SPACE) || (c =? primaryKey) then Next st
      else
        match getKeyIndex pi c with
        | None => Stop (inputCodes st) Fault
        | Some keyIndex =>
            let onKey := isOnKey pi keyIndex x y in
            match squaredDistanceToEdge pi keyIndex x y with
            | None => Stop (inputCodes st) Fault
            | Some distance =>
                if onKey || (distance <? MOST_COMMON_KEY_WIDTH_SQUARE pi)
                then return_if_full pi (push st c)
                else Next st
            end
        end
  end.

(** The body of the loop over the additional proximity characters. *)
Definition additional_body (pi : ProximityInfo) (additionalProximityChars : list Z)
    (j : Z) (st : cursor) : flow :=
  match read additionalProximityChars j with
  | None => Stop (inputCodes st) Fault
  | Some ac =>
      match scan (inputCodes st) ac (seqZ 0 (insertPos st)) (insertPos st) with
      | None => Stop (inputCodes st) Fault
      | Some k =>
          if k <? insertPos st then Next st
          else return_if_full pi (push st ac)
      end
  end.

(** [for (int i = insertPos; i < MAX_PROXIMITY_CHARS_SIZE; ++i) inputCodes[i] = NOT_A_CODE;] *)
Definition fill_not_a_code (pi : ProximityInfo) (st : cursor) : gmap Z Z :=
  foldl (fun m i => <[i := NOT_A_CODE]> m) (inputCodes st)
        (seqZ (insertPos st) (MAX_PROXIMITY_CHARS_SIZE pi - insertPos st)).

(** The part of the function inside [if (startIndex >= 0) { ... }]. *)
Definition scan_grid_and_additional (pi : ProximityInfo) (x y primaryKey startIndex : Z)
    (st : cursor) : flow :=
  match for_each (grid_body pi x y primaryKey startIndex)
                 (seqZ 0 (MAX_PROXIMITY_CHARS_SIZE pi)) st with
  | Stop m o => Stop m o
  | Next st1 =>
      let additionalProximitySize := getAdditionalCharsSize (mLocaleStr pi) primaryKey in
      if additionalProximitySize >? 0 then
        match return_if_full pi (push st1 ADDITIONAL_PROXIMITY_CHAR_DELIMITER_CODE) with
        | Stop m o => Stop m o
        | Next st2 =>
            let additionalProximityChars := getAdditionalChars (mLocaleStr pi) primaryKey in
            for_each (additional_body pi additionalProximityChars)
                     (seqZ 0 additionalProximitySize) st2
        end
      else Next st1
  end.

Definition calculateNearbyKeyCodes (pi : ProximityInfo) (x y primaryKey : Z)
    (inputCodes0 : gmap Z Z) : gmap Z Z * outcome unit :=
  let st0 := push {| inputCodes := inputCodes0; insertPos := 0 |} primaryKey in
  match getStartIndexFromCoordinates pi x y with
  | None => (inputCodes st0, Fault)
  | Some startIndex =>
      match (if startIndex >=? 0
             then scan_grid_and_additional pi x y primaryKey startIndex st0
             else Next st0) with
      | Stop m o => (m, o)
      | Next st => (fill_not_a_code pi st, Returned tt)
      end
  end.

(** *** The constructor *)

(** [copyOrFillZero(to, from, n * sizeof(to[0]))]: the [n] entries it leaves
    in [to]; a null [from] is [None].  The entries are [int32_t]s or the bit
    patterns of [float]s, whose zero is the pattern 0. *)
Definition copyOrFillZero (from : option (list Z)) (n : Z) : option (list Z) :=
  match from with
  | Some l =>
      if (0 <=? n) && (n <=? Z.of_nat (length l)) then Some (take (Z.to_nat n) l) else None
  | None => if 0 <=? n then Some (replicate (Z.to_nat n) 0) else None
  end.

(** The loop of [initializeCodeToKeyIndex] over the key indices [idx]. *)
Fixpoint initializeCodeToKeyIndex_loop (keyCharCodes : list Z) (idx : list Z)
    (table : list Z) : option (list Z) :=
  match idx with
  | [] => Some table
  | i :: rest =>
      match read keyCharCodes i with
      | None => None
      | Some code =>
          initializeCodeToKeyIndex_loop keyCharCodes rest
            (if (0 <=? code) && (code <=? MAX_CHAR_CODE)
             then <[Z.to_nat code := i]> table else table)
      end
  end.

(** [initializeCodeToKeyIndex]: the table after the [memset] to -1 and the
    loop over the keys. *)
Definition initializeCodeToKeyIndex (keyCount : Z) (keyCharCodes : list Z)
  : option (list Z) :=
  initializeCodeToKeyIndex_loop keyCharCodes (seqZ 0 keyCount)
    (replicate (Z.to_nat (MAX_CHAR_CODE + 1)) (-1)).

(** [ProximityInfo::ProximityInfo].  The member initialisers run first, the
    two divisions among them; then the body logs, copies the proximity array
    and the eight key arrays, and builds the code table.  The proximity
    array goes through a plain [memcpy] and is an array here; each of the
    eight key arrays may be null.  The member arrays have
    [MAX_KEY_COUNT_IN_A_KEYBOARD] slots of which the constructor initialises
    the first [KEY_COUNT]; the lists hold those.  A negative grid length
    fails in [new], a negative key count becomes a huge [size_t] in
    [memcpy] and [memset]: both are [Fault]s. *)
Definition new_ProximityInfo (localeStr : string)
    (maxProximityCharsSize keyboardWidth keyboardHeight gridWidth gridHeight
     mostCommonKeyWidth : Z)
    (proximityCharsArray : list Z) (keyCount : Z)
    (keyXCoordinates keyYCoordinates keyWidths keyHeights keyCharCodes
     sweetSpotCenterXs sweetSpotCenterYs sweetSpotRadii : option (list Z))
  : list log_msg * outcome ProximityInfo :=
  let keyCount' := Z.min keyCount MAX_KEY_COUNT_IN_A_KEYBOARD in
  let proximityGridLength :=
    Int32.mul (Int32.mul gridWidth gridHeight) maxProximityCharsSize in
  match Int32.div (Int32.sub (Int32.add keyboardWidth gridWidth) 1) gridWidth,
        Int32.div (Int32.sub (Int32.add keyboardHeight gridHeight) 1) gridHeight with
  | Some cellWidth, Some cellHeight =>
      (if DEBUG_PROXIMITY_INFO then [LogCreate proximityGridLength] else [],
       match copyOrFillZero (Some proximityCharsArray) proximityGridLength,
             copyOrFillZero keyXCoordinates keyCount',
             copyOrFillZero keyYCoordinates keyCount',
             copyOrFillZero keyWidths keyCount',
             copyOrFillZero keyHeights keyCount',
             copyOrFillZero keyCharCodes keyCount',
             copyOrFillZero sweetSpotCenterXs keyCount',
             copyOrFillZero sweetSpotCenterYs keyCount',
             copyOrFillZero sweetSpotRadii keyCount' with
       | Some prox, Some xs, Some ys, Some ws, Some hs, Some codes,
         Some centerXs, Some centerYs, Some radii =>
           match initializeCodeToKeyIndex keyCount' codes with
           | Some table =>
               Returned
                 {| MAX_PROXIMITY_CHARS_SIZE := maxProximityCharsSize;
                    KEYBOARD_WIDTH := keyboardWidth;
                    KEYBOARD_HEIGHT := keyboardHeight;
                    GRID_WIDTH := gridWidth;
                    GRID_HEIGHT := gridHeight;
                    MOST_COMMON_KEY_WIDTH_SQUARE :=
                      Int32.mul mostCommonKeyWidth mostCommonKeyWidth;
                    CELL_WIDTH := cellWidth;
                    CELL_HEIGHT := cellHeight;
                    KEY_COUNT := keyCount';
                    HAS_TOUCH_POSITION_CORRECTION_DATA :=
                      (keyCount >? 0) && bool_decide (is_Some keyXCoordinates)
                      && bool_decide (is_Some keyYCoordinates)
                      && bool_decide (is_Some keyWidths)
                      && bool_decide (is_Some keyHeights)
                      && bool_decide (is_Some keyCharCodes)
                      && bool_decide (is_Some sweetSpotCenterXs)
                      && bool_decide (is_Some sweetSpotCenterYs)
                      && bool_decide (is_Some sweetSpotRadii);
                    mLocaleStr := localeStr;
                    mProximityCharsArray := prox;
                    mKeyXCoordinates := xs;
                    mKeyYCoordinates := ys;
                    mKeyWidths := ws;
                    mKeyHeights := hs;
                    mKeyCharCodes := codes;
                    mSweetSpotCenterXs := centerXs;
                    mSweetSpotCenterYs := centerYs;
                    mSweetSpotRadii := radii;
                    mCodeToKeyIndex := table |}
           | None => Fault
           end
       | _, _, _, _, _, _, _, _, _ => Fault
       end)
  | _, _ => ([], Fault)
  end.

(** *** What the functions are measured against *)

(** The fixed-size code list of the grid cell that starts at [startIndex]:
    the [MAX_PROXIMITY_CHARS_SIZE] reads the loops perform, if none of them
    leaves the array. *)
Definition cell_codes (pi : ProximityInfo) (startIndex : Z) : option (list Z) :=
  mapM (fun i => read (mProximityCharsArray pi) (Int32.add startIndex i))
       (seqZ 0 (MAX_PROXIMITY_CHARS_SIZE pi)).

(** The two inclusion policies, in an OR: on the key, or closer to its
    rectangle than the most common key width. *)
Definition near_key (pi : ProximityInfo) (x y c : Z) : option bool :=
  match getKeyIndex pi c with
  | None => None
  | Some keyIndex =>
      match squaredDistanceToEdge pi keyIndex x y with
      | None => None
      | Some distance =>
          Some (isOnKey pi keyIndex x y || (distance <? MOST_COMMON_KEY_WIDTH_SQUARE pi))
      end
  end.

(** A code of the cell qualifies when it is not below the space code, is
    not the primary code, and is near the touch point. *)
Definition qualifies (pi : ProximityInfo) (x y primaryKey c : Z) : option bool :=
  if (c <? KEYCODE_SPACE) || (c =? primaryKey) then Some false
  else near_key pi x y c.

Definition grid_codes (pi : ProximityInfo) (x y primaryKey : Z) (cell : list Z) : list Z :=
  filter (fun c => qualifies pi x y primaryKey c = Some true) cell.

(** [add_new acc l]: [acc] followed by the members of [l] that are not in
    the list built so far, in the order of [l]. *)
Fixpoint add_new (acc l : list Z) : list Z :=
  match l with
  | [] => acc
  | ac :: rest =>
      if bool_decide (ac ∈ acc) then add_new acc rest
      else add_new (acc ++ [ac]) rest
  end.

(** The additional proximity characters the loop reads for [primaryKey]. *)
Definition additional_chars (pi : ProximityInfo) (primaryKey : Z) : list Z :=
  take (Z.to_nat (getAdditionalCharsSize (mLocaleStr pi) primaryKey))
       (getAdditionalChars (mLocaleStr pi) primaryKey).

(** The candidate codes before truncation and padding. *)
Definition candidates (pi : ProximityInfo) (x y primaryKey : Z) (cell : list Z) : list Z :=
  let found := primaryKey :: grid_codes pi x y primaryKey cell in
  if getAdditionalCharsSize (mLocaleStr pi) primaryKey >? 0
  then add_new (found ++ [ADDITIONAL_PROXIMITY_CHAR_DELIMITER_CODE])
               (additional_chars pi primaryKey)
  else found.

(** Truncation to the fixed width, with sentinel padding. *)
Definition pad_to_width (pi : ProximityInfo) (l : list Z) : list Z :=
  take (Z.to_nat (MAX_PROXIMITY_CHARS_SIZE pi))
       (l ++ replicate (Z.to_nat (MAX_PROXIMITY_CHARS_SIZE pi)) NOT_A_CODE).

(** How the function leaves when the list is full. *)
Definition exit_when_full : outcome unit :=
  if DEBUG_DICT then assert_false (Returned tt) else Returned tt.

(** The invariant the constructor sets up and the readers rely on. *)
Record well_formed (pi : ProximityInfo) : Prop := {
  wf_cell_width : 0 < CELL_WIDTH pi;
  wf_cell_height : 0 < CELL_HEIGHT pi;
  wf_grid_width : 0 < GRID_WIDTH pi;
  wf_grid_height : 0 < GRID_HEIGHT pi;
  wf_max : 0 < MAX_PROXIMITY_CHARS_SIZE pi;
  wf_grid_length :
    Z.of_nat (length (mProximityCharsArray pi))
    = GRID_WIDTH pi * GRID_HEIGHT pi * MAX_PROXIMITY_CHARS_SIZE pi;
  wf_grid_fits : Z.of_nat (length (mProximityCharsArray pi)) <= Int32.max_signed;
  wf_key_ys : length (mKeyYCoordinates pi) = length (mKeyXCoordinates pi);
  wf_key_ws : length (mKeyWidths pi) = length (mKeyXCoordinates pi);
  wf_key_hs : length (mKeyHeights pi) = length (mKeyXCoordinates pi);
  wf_table_length : Z.of_nat (length (mCodeToKeyIndex pi)) = MAX_CHAR_CODE + 1;
  wf_table_range :
    Forall (fun k => k < Z.of_nat (length (mKeyXCoordinates pi))) (mCodeToKeyIndex pi);
  wf_not_an_index : NOT_AN_INDEX < 0;
  wf_additional :
    forall c, getAdditionalCharsSize (mLocaleStr pi) c
              <= Z.of_nat (length (getAdditionalChars (mLocaleStr pi) c))
}.

(** The touch point falls into a cell of the grid. *)
Definition on_grid (pi : ProximityInfo) (x y : Z) : Prop :=
  Int32.in_range x /\ Int32.in_range y /\
  0 <= Z.quot x (CELL_WIDTH pi) < GRID_WIDTH pi /\
  0 <= Z.quot y (CELL_HEIGHT pi) < GRID_HEIGHT pi.

(** The index of that cell, and its code list. *)
Definition cell_index (pi : ProximityInfo) (x y : Z) : Z :=
  Z.quot y (CELL_HEIGHT pi) * GRID_WIDTH pi + Z.quot x (CELL_WIDTH pi).

Definition grid_cell (pi : ProximityInfo) (n : Z) : list Z :=
  take (Z.to_nat (MAX_PROXIMITY_CHARS_SIZE pi))
       (drop (Z.to_nat (n * MAX_PROXIMITY_CHARS_SIZE pi)) (mProximityCharsArray pi)).

End ProximityInfo.

(** Writing [l] into the buffer at consecutive offsets from [pos]. *)
Fixpoint store_from (pos : Z) (l : list Z) (m : gmap Z Z) : gmap Z Z :=
  match l with
  | [] => m
  | c :: rest => store_from (pos + 1) rest (<[pos := c]> m)
  end.

(** The cursor after [l] has been appended to the caller's buffer [m0]. *)
Definition cursor_of (m0 : gmap Z Z) (l : list Z) : cursor :=
  {| inputCodes := store_from 0 l m0; insertPos := Z.of_nat (length l) |}.

(** ** [UnigramDictionary]: the error tolerances *)

Module UnigramDictionary.
Definition DEFAULT_MAX_ERRORS : Z := 2.
Definition MAX_ERRORS_FOR_TWO_WORDS : Z := 1.

(** Mask and flags for children address type selection. *)
Definition MASK_GROUP_ADDRESS_TYPE : Z := 0xC0.
Definition FLAG_GROUP_ADDRESS_TYPE_NOADDRESS : Z := 0x00.
Definition FLAG_GROUP_ADDRESS_TYPE_ONEBYTE : Z := 0x40.
Definition FLAG_GROUP_ADDRESS_TYPE_TWOBYTES : Z := 0x80.
Definition FLAG_GROUP_ADDRESS_TYPE_THREEBYTES : Z := 0xC0.

(** Flag for single/multiple char group, for terminal groups, for shortcut
    targets presence and for bigram presence. *)
Definition FLAG_HAS_MULTIPLE_CHARS : Z := 0x20.
Definition FLAG_IS_TERMINAL : Z := 0x10.
Definition FLAG_HAS_SHORTCUT_TARGETS : Z := 0x08.
Definition FLAG_HAS_BIGRAMS : Z := 0x04.

(** Attribute (bigram/shortcut) related flags. *)
Definition FLAG_ATTRIBUTE_HAS_NEXT : Z := 0x80.
Definition FLAG_ATTRIBUTE_OFFSET_NEGATIVE : Z := 0x40.
Definition MASK_ATTRIBUTE_FREQUENCY : Z := 0x0F.
Definition MASK_ATTRIBUTE_ADDRESS_TYPE : Z := 0x30.
Definition FLAG_ATTRIBUTE_ADDRESS_TYPE_ONEBYTE : Z := 0x10.
Definition FLAG_ATTRIBUTE_ADDRESS_TYPE_TWOBYTES : Z := 0x20.
Definition FLAG_ATTRIBUTE_ADDRESS_TYPE_THREEBYTES : Z := 0x30.

Definition FLAG_MULTIPLE_SUGGEST_ABORT : Z := 0.
Definition FLAG_MULTIPLE_SUGGEST_SKIP : Z := 1.
Definition FLAG_MULTIPLE_SUGGEST_CONTINUE : Z := 2.

(** The presence flags of a group's flag byte. *)
Definition group_presence_flags : list Z :=
  [FLAG_HAS_MULTIPLE_CHARS; FLAG_IS_TERMINAL; FLAG_HAS_SHORTCUT_TARGETS; FLAG_HAS_BIGRAMS].
End UnigramDictionary.

(** ** A configuration to run the model on *)

(** Modelled from the spec: [isOnKey], the inline member of [proximity_info.h]
    that is not among the sources: the touch point lies within the key's
    rectangle, and a negative key id always counts as on the key. *)
Definition isOnKey_spec (pi : ProximityInfo) (keyId x y : Z) : bool :=
  if keyId <? 0 then true
  else
    match read (mKeyXCoordinates pi) keyId, read (mKeyYCoordinates pi) keyId,
          read (mKeyWidths pi) keyId, read (mKeyHeights pi) keyId with
    | Some left', Some top, Some width, Some height =>
        (left' <=? x) && (x <? left' + width) && (top <=? y) && (y <? top + height)
    | _, _, _, _ => false
    end.

(** ASCII lower-casing, standing in for [toBaseLowerCase]. *)
Definition ascii_lower (c : Z) : Z :=
  if (65 <=? c) && (c <=? 90) then c + 32 else c.

(** A release build ([DEBUG_DICT] off, assertions compiled out) whose
    additional-proximity table is [extra]. *)
Definition release_build (extra : Z -> list Z) : Defines :=
  {| KEYCODE_SPACE := 32;
     NOT_A_CODE := -1;
     NOT_AN_INDEX := -1;
     ADDITIONAL_PROXIMITY_CHAR_DELIMITER_CODE := 2;
     MAX_CHAR_CODE := 127;
     MAX_KEY_COUNT_IN_A_KEYBOARD := 64;
     DEBUG_DICT := false;
     DEBUG_PROXIMITY_INFO := false;
     NDEBUG := true;
     toBaseLowerCase := ascii_lower;
     getAdditionalCharsSize := fun _ c => Z.of_nat (length (extra c));
     getAdditionalChars := fun _ c => extra c;
     isOnKey := isOnKey_spec |}.

(** The same with [DEBUG_DICT] on and assertions live. *)
Definition debug_build (extra : Z -> list Z) : Defines :=
  {| KEYCODE_SPACE := 32;
     NOT_A_CODE := -1;
     NOT_AN_INDEX := -1;
     ADDITIONAL_PROXIMITY_CHAR_DELIMITER_CODE := 2;
     MAX_CHAR_CODE := 127;
     MAX_KEY_COUNT_IN_A_KEYBOARD := 64;
     DEBUG_DICT := true;
     DEBUG_PROXIMITY_INFO := false;
     NDEBUG := false;
     toBaseLowerCase := ascii_lower;
     getAdditionalCharsSize := fun _ c => Z.of_nat (length (extra c));
     getAdditionalChars := fun _ c => extra c;
     isOnKey := isOnKey_spec |}.

Definition no_extra : Z -> list Z := fun _ => [].

(** A release build that has [DEBUG_PROXIMITY_INFO] on. *)
Definition trace_build : Defines :=
  {| KEYCODE_SPACE := 32;
     NOT_A_CODE := -1;
     NOT_AN_INDEX := -1;
     ADDITIONAL_PROXIMITY_CHAR_DELIMITER_CODE := 2;
     MAX_CHAR_CODE := 127;
     MAX_KEY_COUNT_IN_A_KEYBOARD := 64;
     DEBUG_DICT := false;
     DEBUG_PROXIMITY_INFO := true;
     NDEBUG := true;
     toBaseLowerCase := ascii_lower;
     getAdditionalCharsSize := fun _ _ => 0;
     getAdditionalChars := fun _ _ => [];
     isOnKey := isOnKey_spec |}.

Definition release : Defines := release_build no_extra.
Definition debug : Defines := debug_build no_extra.

(** The entries [0 .. n-1] of the caller's buffer. *)
Definition codes_of (m : gmap Z Z) (n : Z) : list (option Z) :=
  (fun k => m !! k) <$> seqZ 0 n.

(** [new_chars acc l]: the members of [l] that [add_new acc l] appends. *)
Fixpoint new_chars (acc l : list Z) : list Z :=
  match l with
  | [] => []
  | ac :: rest =>
      if bool_decide (ac ∈ acc) then new_chars acc rest
      else ac :: new_chars (acc ++ [ac]) rest
  end.

(** [v] clamped onto the interval from [lo] to [hi], the way
    [squaredDistanceToEdge] computes [edgeX] and [edgeY]. *)
Definition clamp (lo hi v : Z) : Z :=
  if v <? lo then lo else if v >? hi then hi else v.

(** The buffer is untouched outside the offsets [0 .. n-1]. *)
Definition same_outside (n : Z) (m0 m : gmap Z Z) : Prop :=
  forall k, k < 0 \/ n <= k -> m !! k = m0 !! k.

(** What holds between two statements of [calculateNearbyKeyCodes] that
    makes the next write land inside a buffer of [n] entries. *)
Definition in_bounds (n : Z) (m0 : gmap Z Z) (f : flow) : Prop :=
  match f with
  | Next st => 0 <= insertPos st < n /\ same_outside n m0 (inputCodes st)
  | Stop m _ => same_outside n m0 m
  end.

(** The table [initializeCodeToKeyIndex] builds for the given
    (code, key index) pairs. *)
Definition code_table (entries : list (nat * Z)) : list Z :=
  foldl (fun t e => <[fst e := snd e]> t) (replicate 128 (-1)) entries.

(** The keyboard of the specification's example: one key 'e' at
    (0,0,10,10), a 1x1 grid, four codes per cell. *)
Definition one_key : ProximityInfo :=
  {| MAX_PROXIMITY_CHARS_SIZE := 4;
     KEYBOARD_WIDTH := 10; KEYBOARD_HEIGHT := 10;
     GRID_WIDTH := 1; GRID_HEIGHT := 1;
     MOST_COMMON_KEY_WIDTH_SQUARE := 100;
     CELL_WIDTH := 10; CELL_HEIGHT := 10;
     KEY_COUNT := 1;
     HAS_TOUCH_POSITION_CORRECTION_DATA := false;
     mLocaleStr := "en";
     mProximityCharsArray := [101; -1; -1; -1];
     mKeyXCoordinates := [0]; mKeyYCoordinates := [0];
     mKeyWidths := [10]; mKeyHeights := [10];
     mKeyCharCodes := [101];
     mSweetSpotCenterXs := [0]; mSweetSpotCenterYs := [0]; mSweetSpotRadii := [0];
     mCodeToKeyIndex := code_table [(101%nat, 0)] |}.

(** Two keys side by side, 'a' at (0,0,10,10) and 'b' at (10,0,10,10), under
    a 1x1 grid whose single cell is [prox]. *)
Definition two_keys (maxProximityCharsSize mostCommonKeyWidth : Z) (prox : list Z)
  : ProximityInfo :=
  {| MAX_PROXIMITY_CHARS_SIZE := maxProximityCharsSize;
     KEYBOARD_WIDTH := 20; KEYBOARD_HEIGHT := 10;
     GRID_WIDTH := 1; GRID_HEIGHT := 1;
     MOST_COMMON_KEY_WIDTH_SQUARE := mostCommonKeyWidth * mostCommonKeyWidth;
     CELL_WIDTH := 20; CELL_HEIGHT := 10;
     KEY_COUNT := 2;
     HAS_TOUCH_POSITION_CORRECTION_DATA := false;
     mLocaleStr := "en";
     mProximityCharsArray := prox;
     mKeyXCoordinates := [0; 10]; mKeyYCoordinates := [0; 0];
     mKeyWidths := [10; 10]; mKeyHeights := [10; 10];
     mKeyCharCodes := [97; 98];
     mSweetSpotCenterXs := [0; 0]; mSweetSpotCenterYs := [0; 0];
     mSweetSpotRadii := [0; 0];
     mCodeToKeyIndex := code_table [(97%nat, 0); (98%nat, 1)] |}.

(** A keyboard without key geometry: no keys, a most common key width of 0,
    a 1x1 grid whose single cell is [prox]. *)
Definition no_geometry (maxProximityCharsSize : Z) (prox : list Z) : ProximityInfo :=
  {| MAX_PROXIMITY_CHARS_SIZE := maxProximityCharsSize;
     KEYBOARD_WIDTH := 20; KEYBOARD_HEIGHT := 10;
     GRID_WIDTH := 1; GRID_HEIGHT := 1;
     MOST_COMMON_KEY_WIDTH_SQUARE := 0;
     CELL_WIDTH := 20; CELL_HEIGHT := 10;
     KEY_COUNT := 0;
     HAS_TOUCH_POSITION_CORRECTION_DATA := false;
     mLocaleStr := "en";
     mProximityCharsArray := prox;
     mKeyXCoordinates := []; mKeyYCoordinates := [];
     mKeyWidths := []; mKeyHeights := [];
     mKeyCharCodes := [];
     mSweetSpotCenterXs := []; mSweetSpotCenterYs := []; mSweetSpotRadii := [];
     mCodeToKeyIndex := code_table [] |}.

(** The two keys of [two_keys] under a grid of two columns, one per key. *)
Definition two_cells : ProximityInfo :=
  {| MAX_PROXIMITY_CHARS_SIZE := 4;
     KEYBOARD_WIDTH := 20; KEYBOARD_HEIGHT := 10;
     GRID_WIDTH := 2; GRID_HEIGHT := 1;
     MOST_COMMON_KEY_WIDTH_SQUARE := 100;
     CELL_WIDTH := 10; CELL_HEIGHT := 10;
     KEY_COUNT := 2;
     HAS_TOUCH_POSITION_CORRECTION_DATA := false;
     mLocaleStr := "en";
     mProximityCharsArray := [97; 98; -1; -1; 98; 97; -1; -1];
     mKeyXCoordinates := [0; 10]; mKeyYCoordinates := [0; 0];
     mKeyWidths := [10; 10]; mKeyHeights := [10; 10];
     mKeyCharCodes := [97; 98];
     mSweetSpotCenterXs := [0; 0]; mSweetSpotCenterYs := [0; 0];
     mSweetSpotRadii := [0; 0];
     mCodeToKeyIndex := code_table [(97%nat, 0); (98%nat, 1)] |}.

(** An additional-proximity table: for 'a', two accented forms, with 'b' and
    a repetition in between. *)
Definition accents : Z -> list Z :=
  fun c => if c =? 97 then [224; 98; 224; 225] else [].

(** ** Further definitions *)

(** A property of the cursor while [calculateNearbyKeyCodes] runs and of the
    buffer once it has left. *)
Definition flow_inv (I : cursor -> Prop) (Q : gmap Z Z -> Prop) (f : flow) : Prop :=
  match f with
  | Next st => I st
  | Stop m _ => Q m
  end.

(** A property of the way [calculateNearbyKeyCodes] has left, if it has. *)
Definition flow_exit (P : outcome unit -> Prop) (f : flow) : Prop :=
  match f with
  | Next _ => True
  | Stop _ o => P o
  end.

(** [n] entries can be copied from [from]: it is null or has that many. *)
Definition has_entries (from : option (list Z)) (n : Z) : Prop :=
  match from with
  | Some l => n <= Z.of_nat (length l)
  | None => True
  end.

(** The codes of a cell up to and including its first space code: the
    entries the loop of [hasSpaceProximity] reads. *)
Fixpoint upto_space `{Defines} (cell : list Z) : list Z :=
  match cell with
  | [] => []
  | c :: rest => if c =? KEYCODE_SPACE then [c] else c :: upto_space rest
  end.

Ltac on_grid_by_computation :=
  unfold on_grid, Int32.in_range; repeat split; by vm_compute.

(** ** Lemmas *)

Section Int32_facts.

Lemma wrap_in_range z : Int32.in_range z -> Int32.wrap z = z.
Proof.
  unfold Int32.in_range, Int32.wrap, Int32.min_signed, Int32.max_signed.
  intros Hz. rewrite Z.mod_small; lia.
Qed.

Lemma wrap_range z : Int32.in_range (Int32.wrap z).
Proof.
  unfold Int32.in_range, Int32.wrap, Int32.min_signed, Int32.max_signed.
  pose proof (Z.mod_pos_bound (z + 2 ^ 31) (2 ^ 32)). lia.
Qed.

Lemma quot_in_range a b : Int32.in_range a -> 0 < b -> Int32.in_range (Z.quot a b).
Proof.
  unfold Int32.in_range, Int32.min_signed, Int32.max_signed. intros Ha Hb.
  destruct (Z_le_gt_dec 0 a).
  - pose proof (Z.quot_pos a b). pose proof (Z.quot_le_upper_bound a b a).
    assert (Z.quot a b <= a) by (apply Z.quot_le_upper_bound; nia). lia.
  - pose proof (Z.quot_opp_l a b ltac:(lia)) as Ho.
    assert (0 <= Z.quot (- a) b) by (apply Z.quot_pos; lia).
    assert (Z.quot (- a) b <= - a) by (apply Z.quot_le_upper_bound; nia). lia.
Qed.

Lemma div_pos a b : Int32.in_range a -> 0 < b -> Int32.div a b = Some (Z.quot a b).
Proof.
  intros Ha Hb. unfold Int32.div.
  destruct (Z.eqb_spec b 0); [lia|].
  destruct (Z.eqb_spec b (-1)); [lia|]. rewrite andb_false_r.
  by rewrite wrap_in_range by (by apply quot_in_range).
Qed.

End Int32_facts.

Section buffer_facts.

Lemma store_from_lookup l : forall pos (m : gmap Z Z) k,
  store_from pos l m !! k
  = if decide (pos <= k < pos + Z.of_nat (length l))
    then l !! Z.to_nat (k - pos) else m !! k.
Proof.
  induction l as [|c l IH]; intros pos m k; simpl.
  - case_decide; [lia|done].
  - rewrite IH. repeat case_decide; try lia.
    + replace (Z.to_nat (k - pos)) with (S (Z.to_nat (k - (pos + 1)))) by lia. done.
    + assert (k = pos) as -> by lia. rewrite Z.sub_diag. simpl.
      by rewrite lookup_insert_eq.
    + by rewrite lookup_insert_ne by lia.
Qed.

Lemma store_from_app l1 l2 : forall pos (m : gmap Z Z),
  store_from pos (l1 ++ l2) m
  = store_from (pos + Z.of_nat (length l1)) l2 (store_from pos l1 m).
Proof.
  induction l1 as [|c l1 IH]; intros pos m; simpl.
  - by rewrite Z.add_0_r.
  - rewrite IH. f_equal. lia.
Qed.

Lemma push_cursor_of m0 l c : push (cursor_of m0 l) c = cursor_of m0 (l ++ [c]).
Proof.
  unfold push, cursor_of. simpl. f_equal.
  - rewrite store_from_app. simpl. done.
  - rewrite length_app. simpl. lia.
Qed.

Lemma store_from_fill v : forall n pos (m : gmap Z Z),
  foldl (fun m i => <[i := v]> m) m (seqZ pos (Z.of_nat n))
  = store_from pos (replicate n v) m.
Proof.
  induction n as [|n IH]; intros pos m.
  - by rewrite seqZ_nil by lia.
  - rewrite seqZ_cons by lia. simpl.
    replace (Z.pred (Z.of_nat (S n))) with (Z.of_nat n) by lia.
    rewrite IH. f_equal.
Qed.

(** The dedup scan over a stretch of the buffer that holds [l] finds [ac]
    exactly when it is in [l]. *)
Lemma scan_holds (m : gmap Z Z) ac : forall (l : list Z) pos kend,
  (forall i c, l !! i = Some c -> m !! (pos + Z.of_nat i) = Some c) ->
  kend = pos + Z.of_nat (length l) ->
  exists k,
    scan m ac (seqZ pos (Z.of_nat (length l))) kend = Some k
    /\ (k <? kend) = bool_decide (ac ∈ l).
Proof.
  induction l as [|c l IH]; intros pos kend Hm ->.
  - rewrite seqZ_nil by (simpl; lia). simpl scan. eexists; split; [done|].
    rewrite bool_decide_eq_false_2 by (apply not_elem_of_nil).
    apply Z.ltb_ge. simpl. lia.
  - rewrite seqZ_cons by (simpl; lia). simpl scan.
    specialize (Hm 0%nat c eq_refl) as Hc. rewrite Z.add_0_r in Hc. rewrite Hc.
    destruct (Z.eqb_spec ac c) as [->|Hne].
    + eexists; split; [done|].
      rewrite bool_decide_eq_true_2 by (apply list_elem_of_here).
      apply Z.ltb_lt. simpl length. lia.
    + destruct (IH (Z.succ pos) (Z.succ pos + Z.of_nat (length l))) as (k & Hk & Hb);
        [|done|].
      { intros i c' Hi. specialize (Hm (S i) c' Hi).
        by replace (Z.succ pos + Z.of_nat i) with (pos + Z.of_nat (S i)) by lia. }
      simpl length.
      replace (Z.pred (Z.of_nat (S (length l)))) with (Z.of_nat (length l)) by lia.
      replace (pos + Z.of_nat (S (length l))) with (Z.succ pos + Z.of_nat (length l))
        by lia.
      exists k. split; [exact Hk|]. rewrite Hb.
      apply bool_decide_ext. rewrite elem_of_cons.
      split; [by right | intros [?|?]; [congruence|done]].
Qed.

Lemma scan_written m0 ac (l : list Z) :
  exists k,
    scan (inputCodes (cursor_of m0 l)) ac (seqZ 0 (insertPos (cursor_of m0 l)))
         (insertPos (cursor_of m0 l)) = Some k
    /\ (k <? insertPos (cursor_of m0 l)) = bool_decide (ac ∈ l).
Proof.
  apply scan_holds; [|simpl; lia].
  intros i c Hi. simpl. rewrite store_from_lookup.
  pose proof (lookup_lt_Some _ _ _ Hi).
  rewrite decide_True by lia.
  by replace (Z.to_nat (0 + Z.of_nat i - 0)) with i by lia.
Qed.

End buffer_facts.

Section loops.

Context `{Defines}.
Variable pi : ProximityInfo.

Local Abbreviation MAX := (MAX_PROXIMITY_CHARS_SIZE pi).

Lemma return_if_full_cursor_of m0 l :
  return_if_full pi (cursor_of m0 l)
  = if Z.of_nat (length l) <? MAX then Next (cursor_of m0 l)
    else Stop (store_from 0 l m0) exit_when_full.
Proof.
  unfold return_if_full, exit_when_full. simpl.
  destruct (Z.ltb_spec (Z.of_nat (length l)) MAX), (Z.geb_spec (Z.of_nat (length l)) MAX);
    done || lia.
Qed.

Lemma add_new_extends : forall cs acc, exists ext, add_new acc cs = acc ++ ext.
Proof.
  induction cs as [|c cs IH]; intros acc; simpl.
  - exists []. by rewrite app_nil_r.
  - case_bool_decide; [apply IH|].
    destruct (IH (acc ++ [c])) as [ext ->]. exists (c :: ext).
    by rewrite <- (assoc_L (++)).
Qed.

(** Once the list is exactly full, whatever it would still grow by is cut. *)
Lemma take_full (l ext : list Z) :
  Z.of_nat (length l) = MAX -> take (Z.to_nat MAX) (l ++ ext) = l.
Proof.
  intros Hl. rewrite take_app_le by lia. apply take_ge. lia.
Qed.

(** The loop over the grid cell, from a list that is not yet full. *)
Lemma grid_loop x y primaryKey startIndex m0 : forall idx cell l,
  Forall2 (fun i c => read (mProximityCharsArray pi) (Int32.add startIndex i) = Some c)
          idx cell ->
  Forall (fun c => is_Some (qualifies pi x y primaryKey c)) cell ->
  Z.of_nat (length l) < MAX ->
  for_each (grid_body pi x y primaryKey startIndex) idx (cursor_of m0 l)
  = let all := l ++ grid_codes pi x y primaryKey cell in
    if Z.of_nat (length all) <? MAX then Next (cursor_of m0 all)
    else Stop (store_from 0 (take (Z.to_nat MAX) all) m0) exit_when_full.
Proof.
  intros idx cell l Hreads. revert l.
  induction Hreads as [|i c idx cell Hread _ IH]; intros l Hq Hl; simpl.
  - unfold grid_codes. rewrite filter_nil, app_nil_r.
    by destruct (Z.ltb_spec (Z.of_nat (length l)) MAX); [|lia].
  - apply Forall_cons in Hq as [[b Hb] Hq].
    unfold grid_body. rewrite Hread.
    pose proof Hb as Hb'. unfold qualifies, near_key in Hb'.
    destruct ((c <? KEYCODE_SPACE) || (c =? primaryKey)) eqn:Hskip.
    + injection Hb' as <-.
      unfold grid_codes. rewrite filter_cons_False by (rewrite Hb; discriminate).
      by apply IH.
    + destruct (getKeyIndex pi c) as [keyIndex|]; [|discriminate].
      destruct (squaredDistanceToEdge pi keyIndex x y) as [distance|]; [|discriminate].
      injection Hb' as Hb'. rewrite Hb'.
      unfold grid_codes. destruct b.
      * rewrite filter_cons_True by done.
        rewrite push_cursor_of, return_if_full_cursor_of.
        replace (l ++ c :: filter (fun c0 => qualifies pi x y primaryKey c0 = Some true) cell)
          with ((l ++ [c]) ++ grid_codes pi x y primaryKey cell)
          by (by rewrite <- (assoc_L (++))).
        assert (Z.of_nat (length (l ++ [c])) = Z.of_nat (length l) + 1) as Hlen
          by (rewrite length_app; simpl; lia).
        destruct (Z.ltb_spec (Z.of_nat (length (l ++ [c]))) MAX) as [Hlt|Hge].
        -- by apply IH.
        -- rewrite take_full by lia.
           destruct (Z.ltb_spec
             (Z.of_nat (length ((l ++ [c]) ++ grid_codes pi x y primaryKey cell))) MAX)
             as [Hlt|_]; [|done].
           rewrite length_app in Hlt. lia.
      * rewrite filter_cons_False by (rewrite Hb; discriminate).
        by apply IH.
Qed.

(** The loop over the additional proximity characters. *)
Lemma additional_loop chars m0 : forall idx cs acc,
  Forall2 (fun j c => read chars j = Some c) idx cs ->
  Z.of_nat (length acc) < MAX ->
  for_each (additional_body pi chars) idx (cursor_of m0 acc)
  = let all := add_new acc cs in
    if Z.of_nat (length all) <? MAX then Next (cursor_of m0 all)
    else Stop (store_from 0 (take (Z.to_nat MAX) all) m0) exit_when_full.
Proof.
  intros idx cs acc Hreads. revert acc.
  induction Hreads as [|j c idx cs Hread _ IH]; intros acc Hl; simpl.
  - by destruct (Z.ltb_spec (Z.of_nat (length acc)) MAX); [|lia].
  - unfold additional_body. rewrite Hread.
    destruct (scan_written m0 c acc) as (k & -> & ->).
    case_bool_decide; [by apply IH|].
    rewrite push_cursor_of, return_if_full_cursor_of.
    assert (Z.of_nat (length (acc ++ [c])) = Z.of_nat (length acc) + 1) as Hlen
      by (rewrite length_app; simpl; lia).
    destruct (Z.ltb_spec (Z.of_nat (length (acc ++ [c]))) MAX) as [Hlt|Hge].
    + by apply IH.
    + destruct (add_new_extends cs (acc ++ [c])) as [ext ->].
      rewrite take_full by lia.
      destruct (Z.ltb_spec (Z.of_nat (length ((acc ++ [c]) ++ ext))) MAX) as [Hlt|_];
        [|done].
      rewrite length_app in Hlt. lia.
Qed.

(** The final padding loop. *)
Lemma fill_cursor_of m0 l :
  Z.of_nat (length l) <= MAX ->
  fill_not_a_code pi (cursor_of m0 l) = store_from 0 (pad_to_width pi l) m0.
Proof.
  intros Hl. unfold fill_not_a_code, pad_to_width. simpl.
  replace (MAX - Z.of_nat (length l))
    with (Z.of_nat (Z.to_nat MAX - length l)) by lia.
  rewrite store_from_fill.
  rewrite take_app_ge by lia. rewrite take_replicate.
  rewrite store_from_app. rewrite Z.add_0_l.
  do 2 f_equal. lia.
Qed.

Lemma pad_to_width_full l :
  MAX <= Z.of_nat (length l) -> pad_to_width pi l = take (Z.to_nat MAX) l.
Proof. intros Hl. unfold pad_to_width. apply take_app_le. lia. Qed.

(** Reading a stretch of an array that lies within it. *)
Lemma reads_stretch (a : list Z) (off n : Z) :
  0 <= off -> 0 <= n -> off + n <= Z.of_nat (length a) -> off + n <= Int32.max_signed ->
  Forall2 (fun i c => read a (Int32.add off i) = Some c)
          (seqZ 0 n) (take (Z.to_nat n) (drop (Z.to_nat off) a)).
Proof.
  intros Hoff Hn Hlen Hfit.
  apply Forall2_same_length_lookup_2.
  - rewrite length_seqZ, length_take, length_drop. lia.
  - intros i j c Hi Hc. apply lookup_seqZ in Hi as [-> Hi].
    rewrite lookup_take_Some in Hc. destruct Hc as [Hc _].
    rewrite lookup_drop in Hc.
    unfold Int32.add. rewrite wrap_in_range
      by (unfold Int32.in_range, Int32.min_signed, Int32.max_signed in *; lia).
    unfold read. destruct (Z.ltb_spec (off + (0 + Z.of_nat i)) 0); [lia|].
    by replace (Z.to_nat (off + (0 + Z.of_nat i))) with (Z.to_nat off + i)%nat by lia.
Qed.

End loops.

Section readers.

Context `{Defines}.
Variable pi : ProximityInfo.
Hypothesis Hwf : well_formed pi.

Local Abbreviation MAX := (MAX_PROXIMITY_CHARS_SIZE pi).

Lemma read_Some (a : list Z) i : 0 <= i < Z.of_nat (length a) -> is_Some (read a i).
Proof.
  intros Hi. unfold read. destruct (Z.ltb_spec i 0); [lia|].
  apply lookup_lt_is_Some. lia.
Qed.

(** A key index is negative or the index of a key. *)
Lemma getKeyIndex_range c :
  exists k, getKeyIndex pi c = Some k /\ k < Z.of_nat (length (mKeyXCoordinates pi)).
Proof.
  destruct Hwf. unfold getKeyIndex.
  destruct (KEY_COUNT pi =? 0); [exists NOT_AN_INDEX; split; [done|lia]|].
  destruct (Z.gtb_spec (Int32.to_uint16 (toBaseLowerCase c)) MAX_CHAR_CODE) as [Hgt|Hle];
    [exists NOT_AN_INDEX; split; [done|lia]|].
  assert (0 <= Int32.to_uint16 (toBaseLowerCase c)) as Hnn
    by (unfold Int32.to_uint16; apply Z.mod_pos_bound; lia).
  destruct (read_Some (mCodeToKeyIndex pi) (Int32.to_uint16 (toBaseLowerCase c)))
    as [k Hk]; [lia|].
  exists k. split; [done|].
  unfold read in Hk. destruct (Z.ltb_spec (Int32.to_uint16 (toBaseLowerCase c)) 0); [lia|].
  rewrite Forall_forall in wf_table_range0. apply wf_table_range0.
  by eapply list_elem_of_lookup_2.
Qed.

Lemma squaredDistanceToEdge_total keyId x y :
  keyId < Z.of_nat (length (mKeyXCoordinates pi)) ->
  is_Some (squaredDistanceToEdge pi keyId x y).
Proof.
  destruct Hwf. intros Hk. unfold squaredDistanceToEdge.
  destruct (Z.ltb_spec keyId 0); [done|].
  destruct (read_Some (mKeyXCoordinates pi) keyId) as [? ->]; [lia|].
  destruct (read_Some (mKeyYCoordinates pi) keyId) as [? ->]; [lia|].
  destruct (read_Some (mKeyWidths pi) keyId) as [? ->]; [lia|].
  destruct (read_Some (mKeyHeights pi) keyId) as [? ->]; [lia|].
  done.
Qed.

Lemma qualifies_total x y primaryKey c : is_Some (qualifies pi x y primaryKey c).
Proof.
  unfold qualifies, near_key.
  destruct ((c <? KEYCODE_SPACE) || (c =? primaryKey)); [done|].
  destruct (getKeyIndex_range c) as (k & -> & Hk).
  by destruct (squaredDistanceToEdge_total k x y Hk) as [? ->].
Qed.

(** On the grid nothing wraps: the start index is the cell index times the
    cell width of the array. *)
Lemma cell_index_range x y :
  on_grid pi x y -> 0 <= cell_index pi x y < GRID_WIDTH pi * GRID_HEIGHT pi.
Proof.
  intros (_ & _ & Hx & Hy). unfold cell_index. nia.
Qed.

Lemma getStartIndexFromCoordinates_on_grid x y :
  on_grid pi x y ->
  getStartIndexFromCoordinates pi x y = Some (cell_index pi x y * MAX).
Proof.
  intros Hg. pose proof (cell_index_range x y Hg) as Hc.
  destruct Hg as (Hxr & Hyr & Hx & Hy). destruct Hwf.
  unfold getStartIndexFromCoordinates.
  rewrite !div_pos by done.
  unfold cell_index in *.
  assert (GRID_WIDTH pi * GRID_HEIGHT pi * MAX <= Int32.max_signed) as Hfit by lia.
  unfold Int32.mul, Int32.add.
  assert (forall z, 0 <= z <= GRID_WIDTH pi * GRID_HEIGHT pi * MAX -> Int32.wrap z = z) as Hw.
  { intros z Hz. apply wrap_in_range.
    unfold Int32.in_range, Int32.min_signed, Int32.max_signed in *. lia. }
  rewrite (Hw (_ * GRID_WIDTH pi)) by nia.
  rewrite (Hw (_ + _)) by nia.
  rewrite Hw by nia. done.
Qed.

Lemma cell_codes_on_grid n :
  0 <= n < GRID_WIDTH pi * GRID_HEIGHT pi ->
  cell_codes pi (n * MAX) = Some (grid_cell pi n).
Proof.
  intros Hn. destruct Hwf. unfold cell_codes, grid_cell.
  apply mapM_Some. apply reads_stretch; nia.
Qed.

Lemma additional_reads primaryKey :
  Forall2 (fun j c => read (getAdditionalChars (mLocaleStr pi) primaryKey) j = Some c)
          (seqZ 0 (getAdditionalCharsSize (mLocaleStr pi) primaryKey))
          (additional_chars pi primaryKey).
Proof.
  destruct Hwf. unfold additional_chars.
  specialize (wf_additional0 primaryKey).
  set (a := getAdditionalChars (mLocaleStr pi) primaryKey) in *.
  set (n := getAdditionalCharsSize (mLocaleStr pi) primaryKey) in *.
  apply Forall2_same_length_lookup_2.
  - rewrite length_seqZ, length_take. lia.
  - intros i j c Hi Hc. apply lookup_seqZ in Hi as [-> Hi].
    rewrite lookup_take_Some in Hc. destruct Hc as [Hc _].
    unfold read. destruct (Z.ltb_spec (0 + Z.of_nat i) 0); [lia|].
    by replace (Z.to_nat (0 + Z.of_nat i)) with i by lia.
Qed.

End readers.

Section resolver.

Context `{Defines}.
Variable pi : ProximityInfo.

Local Abbreviation MAX := (MAX_PROXIMITY_CHARS_SIZE pi).

Lemma cursor_of_primary m0 primaryKey :
  push {| inputCodes := m0; insertPos := 0 |} primaryKey = cursor_of m0 [primaryKey].
Proof. done. Qed.

(** The part inside [if (startIndex >= 0)], for a cell whose reads succeed. *)
Lemma scan_grid_and_additional_spec x y primaryKey startIndex cell m0 :
  well_formed pi -> 2 <= MAX ->
  cell_codes pi startIndex = Some cell ->
  let cands := candidates pi x y primaryKey cell in
  scan_grid_and_additional pi x y primaryKey startIndex (cursor_of m0 [primaryKey])
  = if Z.of_nat (length cands) <? MAX then Next (cursor_of m0 cands)
    else Stop (store_from 0 (take (Z.to_nat MAX) cands) m0) exit_when_full.
Proof.
  intros Hwf Hmax Hcell cands. subst cands.
  unfold scan_grid_and_additional, candidates.
  apply mapM_Some in Hcell.
  rewrite (grid_loop pi x y primaryKey startIndex m0 _ cell [primaryKey] Hcell);
    [|apply Forall_forall; intros; by apply qualifies_total|simpl; lia].
  cbv zeta.
  change ([primaryKey] ++ grid_codes pi x y primaryKey cell)
    with (primaryKey :: grid_codes pi x y primaryKey cell).
  set (found := primaryKey :: grid_codes pi x y primaryKey cell).
  destruct (Z.ltb_spec (Z.of_nat (length found)) MAX) as [Hlt|Hge].
  - destruct (getAdditionalCharsSize (mLocaleStr pi) primaryKey >? 0) eqn:Hsize.
    + rewrite push_cursor_of, return_if_full_cursor_of.
      set (acc := found ++ [ADDITIONAL_PROXIMITY_CHAR_DELIMITER_CODE]).
      assert (Z.of_nat (length acc) = Z.of_nat (length found) + 1) as Hlen
        by (subst acc; rewrite length_app; simpl; lia).
      destruct (Z.ltb_spec (Z.of_nat (length acc)) MAX) as [Hlt'|Hge'].
      * apply additional_loop; [by apply additional_reads|done].
      * destruct (add_new_extends (additional_chars pi primaryKey) acc) as [ext ->].
        rewrite take_full by lia.
        destruct (Z.ltb_spec (Z.of_nat (length (acc ++ ext))) MAX) as [Hlt'|_]; [|done].
        rewrite length_app in Hlt'. lia.
    + by destruct (Z.ltb_spec (Z.of_nat (length found)) MAX); [|lia].
  - destruct (getAdditionalCharsSize (mLocaleStr pi) primaryKey >? 0) eqn:Hsize.
    + destruct (add_new_extends (additional_chars pi primaryKey)
                  (found ++ [ADDITIONAL_PROXIMITY_CHAR_DELIMITER_CODE])) as [ext ->].
      rewrite <- (assoc_L (++)).
      destruct (Z.ltb_spec (Z.of_nat (length (found ++
                  [ADDITIONAL_PROXIMITY_CHAR_DELIMITER_CODE] ++ ext))) MAX) as [Hlt'|_].
      { rewrite length_app in Hlt'. lia. }
      rewrite !take_app_le by lia. done.
    + by destruct (Z.ltb_spec (Z.of_nat (length found)) MAX); [lia|].
Qed.

(** [calculateNearbyKeyCodes] for a touch point that falls into a grid cell:
    the buffer receives the candidates of that cell, cut and padded to the
    fixed width, and nothing else. *)
Lemma calculateNearbyKeyCodes_on_grid x y primaryKey m0 :
  well_formed pi -> 2 <= MAX -> on_grid pi x y ->
  let cands := candidates pi x y primaryKey (grid_cell pi (cell_index pi x y)) in
  calculateNearbyKeyCodes pi x y primaryKey m0
  = (store_from 0 (pad_to_width pi cands) m0,
     if Z.of_nat (length cands) <? MAX then Returned tt else exit_when_full).
Proof.
  intros Hwf Hmax Hg cands. unfold calculateNearbyKeyCodes.
  rewrite (getStartIndexFromCoordinates_on_grid pi Hwf x y Hg).
  pose proof (cell_index_range pi x y Hg) as Hc.
  destruct (Z.geb_spec (cell_index pi x y * MAX) 0) as [_|Hneg]; [|nia].
  rewrite cursor_of_primary.
  rewrite (scan_grid_and_additional_spec x y primaryKey _ _ m0 Hwf Hmax
             (cell_codes_on_grid pi Hwf _ Hc)).
  fold cands.
  destruct (Z.ltb_spec (Z.of_nat (length cands)) MAX) as [Hlt|Hge].
  - by rewrite fill_cursor_of by lia.
  - by rewrite pad_to_width_full by lia.
Qed.

(** [calculateNearbyKeyCodes] when the start index is negative: the primary
    code and padding. *)
Lemma calculateNearbyKeyCodes_negative_start x y primaryKey startIndex m0 :
  1 <= MAX ->
  getStartIndexFromCoordinates pi x y = Some startIndex -> startIndex < 0 ->
  calculateNearbyKeyCodes pi x y primaryKey m0
  = (store_from 0 (pad_to_width pi [primaryKey]) m0, Returned tt).
Proof.
  intros Hmax Hs Hneg. unfold calculateNearbyKeyCodes. rewrite Hs.
  destruct (Z.geb_spec startIndex 0); [lia|].
  rewrite cursor_of_primary. by rewrite fill_cursor_of by (simpl; lia).
Qed.

End resolver.

(** ** The constructor sets the invariant up *)

Section constructor.

Context `{Defines}.

Lemma copyOrFillZero_length from n l :
  copyOrFillZero from n = Some l -> Z.of_nat (length l) = n.
Proof.
  unfold copyOrFillZero. destruct from as [a|].
  - destruct (Z.leb_spec 0 n), (Z.leb_spec n (Z.of_nat (length a))); simpl; try done.
    intros [= <-]. rewrite length_take. lia.
  - destruct (Z.leb_spec 0 n); [|done].
    intros [= <-]. rewrite length_replicate. lia.
Qed.

Lemma initializeCodeToKeyIndex_loop_spec codes bound : forall idx table table',
  initializeCodeToKeyIndex_loop codes idx table = Some table' ->
  Forall (fun i => i < bound) idx ->
  Forall (fun k => k < bound) table ->
  length table' = length table /\ Forall (fun k => k < bound) table'.
Proof.
  induction idx as [|i idx IH]; intros table table'; simpl.
  - by intros [= <-].
  - destruct (read codes i) as [code|]; [|done].
    intros Hloop [Hi Hidx]%Forall_cons Htable.
    destruct (IH _ _ Hloop Hidx) as [Hlen Hall].
    + destruct (_ && _); [|done]. by apply Forall_insert.
    + split; [|done]. rewrite Hlen. destruct (_ && _); [|done]. apply length_insert.
Qed.

Lemma cell_size_positive keyboardSize gridSize cellSize :
  0 < keyboardSize -> 0 < gridSize -> Int32.in_range (keyboardSize + gridSize) ->
  Int32.div (Int32.sub (Int32.add keyboardSize gridSize) 1) gridSize = Some cellSize ->
  0 < cellSize.
Proof.
  intros Hk Hg Hr. unfold Int32.add, Int32.sub.
  rewrite (wrap_in_range (keyboardSize + gridSize)) by done.
  assert (Int32.in_range (keyboardSize + gridSize - 1)) as Hr'
    by (unfold Int32.in_range, Int32.min_signed, Int32.max_signed in *; lia).
  rewrite wrap_in_range by done. rewrite div_pos by done.
  intros [= <-].
  assert (1 <= Z.quot (keyboardSize + gridSize - 1) gridSize); [|lia].
  apply Z.quot_le_lower_bound; lia.
Qed.

(** An object the constructor returns, from positive dimensions that do not
    overflow, satisfies [well_formed]. *)
Lemma new_ProximityInfo_well_formed localeStr maxProximityCharsSize keyboardWidth
    keyboardHeight gridWidth gridHeight mostCommonKeyWidth proximityCharsArray keyCount
    keyXCoordinates keyYCoordinates keyWidths keyHeights keyCharCodes
    sweetSpotCenterXs sweetSpotCenterYs sweetSpotRadii pi :
  snd (new_ProximityInfo localeStr maxProximityCharsSize keyboardWidth keyboardHeight
         gridWidth gridHeight mostCommonKeyWidth proximityCharsArray keyCount
         keyXCoordinates keyYCoordinates keyWidths keyHeights keyCharCodes
         sweetSpotCenterXs sweetSpotCenterYs sweetSpotRadii)
  = Returned pi ->
  0 < maxProximityCharsSize -> 0 < gridWidth -> 0 < gridHeight ->
  0 < keyboardWidth -> 0 < keyboardHeight ->
  Int32.in_range (keyboardWidth + gridWidth) ->
  Int32.in_range (keyboardHeight + gridHeight) ->
  gridWidth * gridHeight * maxProximityCharsSize <= Int32.max_signed ->
  0 <= MAX_CHAR_CODE -> NOT_AN_INDEX < 0 ->
  (forall c, getAdditionalCharsSize localeStr c
             <= Z.of_nat (length (getAdditionalChars localeStr c))) ->
  well_formed pi.
Proof.
  intros Hnew Hmax Hgw Hgh Hkw Hkh Hwr Hhr Hfit Hcode Hnot Hadd.
  unfold new_ProximityInfo in Hnew.
  destruct (Int32.div _ gridWidth) as [cellWidth|] eqn:Hcw; [|done].
  destruct (Int32.div _ gridHeight) as [cellHeight|] eqn:Hch; [|done].
  cbv [snd] in Hnew.
  destruct (copyOrFillZero (Some proximityCharsArray) _) as [prox|] eqn:Hprox; [|done].
  destruct (copyOrFillZero keyXCoordinates _) as [xs|] eqn:Hxs; [|done].
  destruct (copyOrFillZero keyYCoordinates _) as [ys|] eqn:Hys; [|done].
  destruct (copyOrFillZero keyWidths _) as [ws|] eqn:Hws; [|done].
  destruct (copyOrFillZero keyHeights _) as [hs|] eqn:Hhs; [|done].
  destruct (copyOrFillZero keyCharCodes _) as [codes|] eqn:Hcodes; [|done].
  destruct (copyOrFillZero sweetSpotCenterXs _) as [centerXs|]; [|done].
  destruct (copyOrFillZero sweetSpotCenterYs _) as [centerYs|]; [|done].
  destruct (copyOrFillZero sweetSpotRadii _) as [radii|]; [|done].
  destruct (initializeCodeToKeyIndex _ codes) as [table|] eqn:Htable; [|done].
  injection Hnew as <-.
  apply copyOrFillZero_length in Hprox, Hxs, Hys, Hws, Hhs, Hcodes.
  assert (Int32.mul (Int32.mul gridWidth gridHeight) maxProximityCharsSize
          = gridWidth * gridHeight * maxProximityCharsSize) as Hlen.
  { unfold Int32.mul. rewrite (wrap_in_range (gridWidth * gridHeight)).
    - apply wrap_in_range.
      unfold Int32.in_range, Int32.min_signed, Int32.max_signed in *. nia.
    - unfold Int32.in_range, Int32.min_signed, Int32.max_signed in *. nia. }
  unfold initializeCodeToKeyIndex in Htable.
  apply (initializeCodeToKeyIndex_loop_spec codes
           (Z.min keyCount MAX_KEY_COUNT_IN_A_KEYBOARD)) in Htable as [Htl Htr].
  2: { apply Forall_seqZ. lia. }
  2: { apply Forall_replicate. lia. }
  rewrite length_replicate in Htl.
  split; simpl.
  - exact (cell_size_positive keyboardWidth gridWidth cellWidth Hkw Hgw Hwr Hcw).
  - exact (cell_size_positive keyboardHeight gridHeight cellHeight Hkh Hgh Hhr Hch).
  - done.
  - done.
  - done.
  - lia.
  - lia.
  - lia.
  - lia.
  - lia.
  - lia.
  - by rewrite Hxs.
  - done.
  - done.
Qed.

End constructor.

(** ** The example keyboards are what the constructor builds *)

Example new_one_key :
  snd (new_ProximityInfo (H := release) "en" 4 10 10 1 1 10 [101; -1; -1; -1] 1
         (Some [0]) (Some [0]) (Some [10]) (Some [10]) (Some [101]) None None None)
  = Returned one_key.
Proof. vm_compute. reflexivity. Qed.

Example new_two_keys :
  snd (new_ProximityInfo (H := release) "en" 4 20 10 1 1 20 [97; 98; -1; -1] 2
         (Some [0; 10]) (Some [0; 0]) (Some [10; 10]) (Some [10; 10]) (Some [97; 98])
         None None None)
  = Returned (two_keys 4 20 [97; 98; -1; -1]).
Proof. vm_compute. reflexivity. Qed.

(** The example of the specification: a touch at (5,5) on the only key. *)
Example one_key_touch :
  calculateNearbyKeyCodes (H := release) one_key 5 5 101 ∅
  = (store_from 0 [101; -1; -1; -1] ∅, Returned tt).
Proof. vm_compute. reflexivity. Qed.

Lemma one_key_well_formed extra : well_formed (H := release_build extra) one_key.
Proof.
  split; simpl; try (unfold Int32.max_signed; lia); try done.
  apply (bool_decide_unpack _). vm_compute. exact I.
Qed.

Lemma two_keys_well_formed extra n w prox :
  0 < n -> Z.of_nat (length prox) = n -> n <= Int32.max_signed ->
  well_formed (H := release_build extra) (two_keys n w prox).
Proof.
  intros Hn Hlen Hfit.
  split; simpl; try lia; try done.
  apply (bool_decide_unpack _). vm_compute. exact I.
Qed.

(** ** The error tolerances of the search *)

(** C9. The error budget of the search engine: at most 2 correction
    operations for a single-word match ([DEFAULT_MAX_ERRORS]) and at most 1
    for a two-word split ([MAX_ERRORS_FOR_TWO_WORDS]). *)
Theorem error_tolerances :
  UnigramDictionary.DEFAULT_MAX_ERRORS = 2
  /\ UnigramDictionary.MAX_ERRORS_FOR_TWO_WORDS = 1.
Proof. split; reflexivity. Qed.

(** ** [squaredDistanceToEdge] *)

Section distance.

Variable pi : ProximityInfo.

Lemma clamp_inside lo hi v : v - clamp lo hi v = 0 <-> lo <= v <= hi.
Proof.
  unfold clamp.
  destruct (Z.ltb_spec v lo); [lia|]. destruct (Z.gtb_spec v hi); lia.
Qed.

Lemma square_in_range d s :
  0 <= s -> Int32.in_range (d * d + s) -> Int32.in_range d /\ Int32.in_range (d * d).
Proof.
  unfold Int32.in_range, Int32.min_signed, Int32.max_signed. intros Hs Hr. nia.
Qed.

(** C2, at the failing input: on a keyboard without key geometry every code
    has the key index -1, for which the function returns the integer 1 (its
    [return true;]); that distance does not pass the threshold test
    [distance < MOST_COMMON_KEY_WIDTH_SQUARE] of this keyboard, whose most
    common key width is 0. *)
Theorem squaredDistanceToEdge_negative_key_id :
  let pi := no_geometry 4 [97; 98; -1; -1] in
  getKeyIndex (H := release) pi 98 = Some (-1)
  /\ squaredDistanceToEdge pi (-1) 5 5 = Some 1
  /\ (1 <? MOST_COMMON_KEY_WIDTH_SQUARE pi) = false.
Proof. cbv zeta. repeat split; reflexivity. Qed.

(** C3, as stated, fails: the point (5,20) lies within the x-extent [0,10]
    of the key of [one_key] and below its y-extent, and its squared distance
    to the key is 100, not 0. *)
Lemma squaredDistanceToEdge_inside_one_axis :
  read (mKeyXCoordinates one_key) 0 = Some 0
  /\ read (mKeyWidths one_key) 0 = Some 10
  /\ 0 <= 5 <= 0 + 10
  /\ squaredDistanceToEdge one_key 0 5 20 = Some 100
  /\ squaredDistanceToEdge one_key 0 5 20 <> Some 0.
Proof. repeat split; (reflexivity || lia || discriminate). Qed.

(** C3, amended. For a key id that is non-negative and in range, and as long
    as the key's right and bottom edges and the result are representable,
    [squaredDistanceToEdge] returns the squared Euclidean distance from the
    point to its clamp onto the key's rectangle; that is 0 exactly when the
    point lies within the rectangle in both axes, edges included. *)
Theorem squaredDistanceToEdge_clamped keyId x y left' top width height :
  0 <= keyId ->
  read (mKeyXCoordinates pi) keyId = Some left' ->
  read (mKeyYCoordinates pi) keyId = Some top ->
  read (mKeyWidths pi) keyId = Some width ->
  read (mKeyHeights pi) keyId = Some height ->
  let right' := left' + width in
  let bottom := top + height in
  let dx := x - clamp left' right' x in
  let dy := y - clamp top bottom y in
  Int32.in_range right' -> Int32.in_range bottom ->
  Int32.in_range (dx * dx + dy * dy) ->
  squaredDistanceToEdge pi keyId x y = Some (dx * dx + dy * dy)
  /\ (dx * dx + dy * dy = 0 <-> left' <= x <= right' /\ top <= y <= bottom).
Proof.
  intros Hid Hx Hy Hw Hh right' bottom dx dy Hr Hb Hd.
  split.
  - unfold squaredDistanceToEdge.
    destruct (Z.ltb_spec keyId 0); [lia|].
    rewrite Hx, Hy, Hw, Hh.
    replace (Int32.add left' width) with right'
      by (symmetry; apply wrap_in_range; exact Hr).
    replace (Int32.add top height) with bottom
      by (symmetry; apply wrap_in_range; exact Hb).
    fold (clamp left' right' x) (clamp top bottom y).
    destruct (square_in_range dx (dy * dy)) as [Hdx Hdx2]; [nia|done|].
    destruct (square_in_range dy (dx * dx)) as [Hdy Hdy2];
      [nia|by rewrite Z.add_comm|].
    unfold Int32.sub. fold dx dy. rewrite !wrap_in_range by done.
    unfold Int32.mul, Int32.add.
    rewrite (wrap_in_range (dx * dx)), (wrap_in_range (dy * dy)) by done.
    by rewrite wrap_in_range by done.
  - rewrite <- (clamp_inside left' right' x), <- (clamp_inside top bottom y).
    fold dx dy. nia.
Qed.

End distance.

(** An instance: the point (5,20) and the key of [one_key]. *)
Lemma squaredDistanceToEdge_clamped_witness :
  squaredDistanceToEdge one_key 0 5 20 = Some (0 * 0 + 10 * 10)
  /\ (0 * 0 + 10 * 10 = 0 <-> 0 <= 5 <= 10 /\ 0 <= 20 <= 10).
Proof.
  apply (squaredDistanceToEdge_clamped one_key 0 5 20 0 0 10 10);
    try reflexivity; try lia;
    unfold Int32.in_range, Int32.min_signed, Int32.max_signed, clamp; simpl; lia.
Defined.

(** ** Every write of [calculateNearbyKeyCodes] lands inside the buffer *)

Section safety.

Context `{Defines}.
Variable pi : ProximityInfo.
Variable m0 : gmap Z Z.

Local Abbreviation MAX := (MAX_PROXIMITY_CHARS_SIZE pi).

Lemma seqZ_to_nat m n : seqZ m n = seqZ m (Z.of_nat (Z.to_nat n)).
Proof. unfold seqZ. by rewrite Nat2Z.id. Qed.

Lemma push_in_bounds st c :
  in_bounds MAX m0 (Next st) -> in_bounds MAX m0 (return_if_full pi (push st c)).
Proof.
  intros [Hpos Hsame]. unfold return_if_full. simpl.
  assert (same_outside MAX m0 (<[insertPos st := c]> (inputCodes st))) as Hsame'.
  { intros k Hk. rewrite lookup_insert_ne by lia. by apply Hsame. }
  destruct (Z.geb_spec (insertPos st + 1) MAX); simpl; [done|].
  split; [lia|done].
Qed.

Lemma grid_body_in_bounds x y primaryKey startIndex i st :
  in_bounds MAX m0 (Next st) ->
  in_bounds MAX m0 (grid_body pi x y primaryKey startIndex i st).
Proof.
  intros Hst. unfold grid_body.
  destruct (read _ _); [|apply Hst].
  destruct (_ || _); [done|].
  destruct (getKeyIndex _ _); [|apply Hst].
  destruct (squaredDistanceToEdge _ _ _ _); [|apply Hst].
  destruct (_ || _); [by apply push_in_bounds|done].
Qed.

Lemma additional_body_in_bounds chars j st :
  in_bounds MAX m0 (Next st) ->
  in_bounds MAX m0 (additional_body pi chars j st).
Proof.
  intros Hst. unfold additional_body.
  destruct (read _ _); [|apply Hst].
  destruct (scan _ _ _ _); [|apply Hst].
  destruct (_ <? _); [done|by apply push_in_bounds].
Qed.

Lemma for_each_in_bounds body :
  (forall i st, in_bounds MAX m0 (Next st) -> in_bounds MAX m0 (body i st)) ->
  forall idx st, in_bounds MAX m0 (Next st) -> in_bounds MAX m0 (for_each body idx st).
Proof.
  intros Hbody idx. induction idx as [|i idx IH]; intros st Hst; simpl; [done|].
  specialize (Hbody i st Hst). destruct (body i st); [by apply IH|done].
Qed.

Lemma scan_grid_and_additional_in_bounds x y primaryKey startIndex st :
  in_bounds MAX m0 (Next st) ->
  in_bounds MAX m0 (scan_grid_and_additional pi x y primaryKey startIndex st).
Proof.
  intros Hst. unfold scan_grid_and_additional.
  pose proof (for_each_in_bounds _ (grid_body_in_bounds x y primaryKey startIndex)
                (seqZ 0 MAX) st Hst) as Hgrid.
  destruct (for_each _ _ st) as [st1|]; [|done].
  destruct (_ >? 0); [|done].
  pose proof (push_in_bounds st1 ADDITIONAL_PROXIMITY_CHAR_DELIMITER_CODE Hgrid) as Hdelim.
  destruct (return_if_full _ _) as [st2|]; [|done].
  by apply for_each_in_bounds; [apply additional_body_in_bounds|].
Qed.

Lemma fill_not_a_code_same_outside st :
  in_bounds MAX m0 (Next st) -> same_outside MAX m0 (fill_not_a_code pi st).
Proof.
  intros [Hpos Hsame] k Hk. unfold fill_not_a_code.
  rewrite seqZ_to_nat, store_from_fill, store_from_lookup, length_replicate.
  rewrite decide_False by lia. by apply Hsame.
Qed.

(** With room for the primary code and one more, no write leaves the
    buffer of [MAX_PROXIMITY_CHARS_SIZE] entries. *)
Lemma calculateNearbyKeyCodes_same_outside x y primaryKey :
  2 <= MAX ->
  same_outside MAX m0 (fst (calculateNearbyKeyCodes pi x y primaryKey m0)).
Proof.
  intros Hmax. unfold calculateNearbyKeyCodes.
  set (st0 := push {| inputCodes := m0; insertPos := 0 |} primaryKey).
  assert (in_bounds MAX m0 (Next st0)) as Hst0.
  { split; [simpl; lia|]. intros k Hk. simpl. by rewrite lookup_insert_ne by lia. }
  destruct (getStartIndexFromCoordinates pi x y) as [startIndex|]; [|apply Hst0].
  destruct (startIndex >=? 0).
  - pose proof (scan_grid_and_additional_in_bounds x y primaryKey startIndex st0 Hst0) as Hrun.
    destruct (scan_grid_and_additional _ _ _ _ _ _) as [st|]; simpl; [|done].
    by apply fill_not_a_code_same_outside.
  - simpl. by apply fill_not_a_code_same_outside.
Qed.

End safety.

(** ** The candidate list and what the buffer holds *)

Section candidate_facts.

Context `{Defines}.
Variable pi : ProximityInfo.

Local Abbreviation MAX := (MAX_PROXIMITY_CHARS_SIZE pi).

Lemma add_new_new_chars : forall cs acc, add_new acc cs = acc ++ new_chars acc cs.
Proof.
  induction cs as [|c cs IH]; intros acc; simpl.
  - by rewrite app_nil_r.
  - case_bool_decide; [apply IH|].
    rewrite IH. by rewrite <- (assoc_L (++)).
Qed.

(** A character is appended only when the list built so far lacks it. *)
Lemma new_chars_fresh : forall cs acc i a,
  new_chars acc cs !! i = Some a -> a ∉ acc ++ take i (new_chars acc cs).
Proof.
  induction cs as [|c cs IH]; intros acc i a; simpl; [done|].
  case_bool_decide as Hin; [apply IH|].
  destruct i as [|i]; simpl.
  - intros [= ->]. by rewrite app_nil_r.
  - intros Hi. specialize (IH _ _ _ Hi).
    by rewrite <- (assoc_L (++)) in IH.
Qed.

Lemma new_chars_from : forall cs acc a, a ∈ new_chars acc cs -> a ∈ cs.
Proof.
  induction cs as [|c cs IH]; intros acc a; simpl; [done|].
  case_bool_decide.
  - intros Ha. right. by eapply IH.
  - intros [->|Ha]%elem_of_cons; [by left|]. right. by eapply IH.
Qed.

Lemma new_chars_complete : forall cs acc a,
  a ∈ cs -> a ∈ acc ++ new_chars acc cs.
Proof.
  induction cs as [|c cs IH]; intros acc a; simpl; [by intros ?%elem_of_nil|].
  intros [->|Ha]%elem_of_cons.
  - case_bool_decide; [apply elem_of_app; by left|].
    apply elem_of_app; right. by left.
  - case_bool_decide; [by apply IH|].
    specialize (IH (acc ++ [c]) a Ha).
    by rewrite <- (assoc_L (++)) in IH.
Qed.

(** The tail of the candidate list after the grid-derived codes. *)
Lemma candidates_shape x y primaryKey cell :
  candidates pi x y primaryKey cell
  = (primaryKey :: grid_codes pi x y primaryKey cell)
    ++ (if getAdditionalCharsSize (mLocaleStr pi) primaryKey >? 0
        then ADDITIONAL_PROXIMITY_CHAR_DELIMITER_CODE
             :: new_chars ((primaryKey :: grid_codes pi x y primaryKey cell)
                           ++ [ADDITIONAL_PROXIMITY_CHAR_DELIMITER_CODE])
                          (additional_chars pi primaryKey)
        else []).
Proof.
  unfold candidates. destruct (_ >? 0).
  - rewrite add_new_new_chars. by rewrite <- (assoc_L (++)).
  - by rewrite app_nil_r.
Qed.

Lemma additional_chars_none primaryKey :
  getAdditionalCharsSize (mLocaleStr pi) primaryKey <= 0 -> additional_chars pi primaryKey = [].
Proof.
  intros Hsize. unfold additional_chars.
  by replace (Z.to_nat _) with 0%nat by lia.
Qed.

Lemma length_pad_to_width l : 0 <= MAX -> Z.of_nat (length (pad_to_width pi l)) = MAX.
Proof.
  intros Hmax. unfold pad_to_width.
  rewrite length_take, length_app, length_replicate. lia.
Qed.

(** What the buffer holds at an offset inside the fixed width. *)
Lemma lookup_padded m0 l k :
  0 <= k < MAX ->
  store_from 0 (pad_to_width pi l) m0 !! k
  = (l ++ replicate (Z.to_nat MAX) NOT_A_CODE) !! Z.to_nat k.
Proof.
  intros Hk. rewrite store_from_lookup, length_pad_to_width by lia.
  rewrite decide_True by lia. rewrite Z.sub_0_r.
  unfold pad_to_width. apply lookup_take_lt. lia.
Qed.

Lemma lookup_padded_code m0 l k :
  0 <= k < MAX -> k < Z.of_nat (length l) ->
  store_from 0 (pad_to_width pi l) m0 !! k = l !! Z.to_nat k.
Proof.
  intros Hk Hl. rewrite lookup_padded by done. apply lookup_app_l. lia.
Qed.

Lemma lookup_padded_sentinel m0 l k :
  0 <= k < MAX -> Z.of_nat (length l) <= k ->
  store_from 0 (pad_to_width pi l) m0 !! k = Some NOT_A_CODE.
Proof.
  intros Hk Hl. rewrite lookup_padded by done.
  rewrite lookup_app_r by lia. apply lookup_replicate_2. lia.
Qed.

Lemma codes_of_store_from m0 l :
  codes_of (store_from 0 l m0) (Z.of_nat (length l)) = Some <$> l.
Proof.
  unfold codes_of. apply list_eq. intros i.
  rewrite !list_lookup_fmap.
  destruct (decide (i < length l)%nat) as [Hi|Hi].
  - rewrite lookup_seqZ_lt by lia. simpl.
    rewrite store_from_lookup, decide_True by lia.
    rewrite Z.add_0_l, Z.sub_0_r, Nat2Z.id.
    by destruct (lookup_lt_is_Some_2 l i Hi) as [c ->].
  - rewrite lookup_seqZ_ge by lia. by rewrite lookup_ge_None_2 by lia.
Qed.

Lemma pad_to_width_primary primaryKey :
  1 <= MAX ->
  pad_to_width pi [primaryKey]
  = primaryKey :: replicate (Z.to_nat (MAX - 1)) NOT_A_CODE.
Proof.
  intros Hmax. unfold pad_to_width.
  change (take (Z.to_nat MAX) ([primaryKey] ++ ?l))
    with (take (Z.to_nat MAX) (primaryKey :: l)).
  replace (Z.to_nat MAX) with (S (Z.to_nat (MAX - 1))) at 1 by lia.
  rewrite firstn_cons. f_equal. rewrite take_replicate. f_equal. lia.
Qed.

Lemma codes_of_padded m0 l :
  0 <= MAX ->
  codes_of (store_from 0 (pad_to_width pi l) m0) MAX = Some <$> pad_to_width pi l.
Proof.
  intros Hmax. pose proof (length_pad_to_width l Hmax) as Hlen.
  rewrite <- Hlen at 1. apply codes_of_store_from.
Qed.

(** The three conditions on a code of the cell, spelled out. *)
Lemma qualifies_true x y primaryKey c :
  qualifies pi x y primaryKey c = Some true
  <-> KEYCODE_SPACE <= c /\ c <> primaryKey
      /\ exists keyIndex distance,
           getKeyIndex pi c = Some keyIndex
           /\ squaredDistanceToEdge pi keyIndex x y = Some distance
           /\ (isOnKey pi keyIndex x y = true
               \/ distance < MOST_COMMON_KEY_WIDTH_SQUARE pi).
Proof.
  unfold qualifies, near_key.
  destruct (Z.ltb_spec c KEYCODE_SPACE) as [Hlt|Hge]; simpl.
  { split; [done|]. intros (? & _). lia. }
  destruct (Z.eqb_spec c primaryKey) as [Heq|Hne]; simpl.
  { split; [done|]. by intros (_ & ? & _). }
  destruct (getKeyIndex pi c) as [keyIndex|] eqn:Hkey.
  2: { split; [done|]. by intros (_ & _ & ? & ? & ? & _). }
  destruct (squaredDistanceToEdge pi keyIndex x y) as [distance|] eqn:Hdist.
  2: { split; [done|]. intros (_ & _ & k & d & [= <-] & Hd & _). congruence. }
  split.
  - intros [= Hor]. apply orb_true_iff in Hor.
    repeat split; [done..|]. exists keyIndex, distance. repeat split; [done..|].
    destruct Hor as [?|?%Z.ltb_lt]; [by left|by right].
  - intros (_ & _ & k & d & [= <-] & Hd & Hor).
    assert (d = distance) as -> by congruence. f_equal.
    apply orb_true_iff. destruct Hor as [?|?]; [by left|right; by apply Z.ltb_lt].
Qed.

End candidate_facts.

(** ** [calculateNearbyKeyCodes]: the candidate list *)

Section candidate_list.

Context `{Defines}.
Variable pi : ProximityInfo.

Local Abbreviation MAX := (MAX_PROXIMITY_CHARS_SIZE pi).

(** A touch point within the keyboard's grid, at non-negative coordinates,
    falls into a cell. *)
Lemma non_negative_on_grid x y :
  0 < CELL_WIDTH pi -> 0 < CELL_HEIGHT pi ->
  0 <= x < CELL_WIDTH pi * GRID_WIDTH pi -> 0 <= y < CELL_HEIGHT pi * GRID_HEIGHT pi ->
  Int32.in_range x -> Int32.in_range y ->
  on_grid pi x y.
Proof.
  intros Hcw Hch Hx Hy Hxr Hyr.
  split; [done|split; [done|split; split]].
  - apply Z.quot_pos; lia.
  - apply Z.quot_lt_upper_bound; lia.
  - apply Z.quot_pos; lia.
  - apply Z.quot_lt_upper_bound; lia.
Qed.



(** C6, amended. With [MAX_PROXIMITY_CHARS_SIZE] at least 2, no write of
    [calculateNearbyKeyCodes] lands outside the offsets below
    [MAX_PROXIMITY_CHARS_SIZE], whatever the input.  For a touch point in a
    grid cell the buffer holds the candidates cut at that width, every slot
    after the last candidate holds [NOT_A_CODE], and reaching the width ends
    the function through [exit_when_full], which is a plain return when
    [DEBUG_DICT] is off; for a negative start index (one whose two divisions
    are defined, the least [int] over -1 being a fault as is a cell size
    of 0) every slot after the primary code holds [NOT_A_CODE]. *)
Theorem writes_stay_within_width x y primaryKey m0 :
  2 <= MAX ->
  let m := fst (calculateNearbyKeyCodes pi x y primaryKey m0) in
  let o := snd (calculateNearbyKeyCodes pi x y primaryKey m0) in
  same_outside MAX m0 m
  /\ (well_formed pi -> on_grid pi x y ->
      let cands := candidates pi x y primaryKey (grid_cell pi (cell_index pi x y)) in
      (forall k, 0 <= k < MAX -> k < Z.of_nat (length cands) ->
         m !! k = cands !! Z.to_nat k)
      /\ (forall k, 0 <= k < MAX -> Z.of_nat (length cands) <= k ->
            m !! k = Some NOT_A_CODE)
      /\ o = (if Z.of_nat (length cands) <? MAX then Returned tt else exit_when_full)
      /\ (DEBUG_DICT = false -> o = Returned tt))
  /\ (forall startIndex,
        getStartIndexFromCoordinates pi x y = Some startIndex -> startIndex < 0 ->
        o = Returned tt /\ forall k, 1 <= k < MAX -> m !! k = Some NOT_A_CODE).
Proof.
  intros Hmax m o. split; [|split].
  - by apply calculateNearbyKeyCodes_same_outside.
  - intros Hwf Hg cands. subst m o.
    rewrite (calculateNearbyKeyCodes_on_grid pi x y primaryKey m0 Hwf Hmax Hg).
    fold cands. cbv [fst snd]. repeat split.
    + intros k Hk Hl. by apply lookup_padded_code.
    + intros k Hk Hl. by apply lookup_padded_sentinel.
    + intros Hdebug. unfold exit_when_full. rewrite Hdebug. by destruct (_ <? _).
  - intros startIndex Hs Hneg. subst m o.
    rewrite (calculateNearbyKeyCodes_negative_start pi x y primaryKey startIndex m0)
      by (done || lia).
    cbv [fst snd]. split; [done|].
    intros k Hk. apply lookup_padded_sentinel; simpl; lia.
Qed.

(** C7. In a resolution that reaches the additional proximity characters,
    every entry written after the delimiter differs from every entry before
    it in the buffer (the primary code, the grid-derived codes, the
    delimiter and the additional characters written earlier), and is one of
    the additional characters of the primary code; an additional character
    is left out only if it is already in the list or the width is reached. *)
Theorem additional_chars_not_duplicated x y primaryKey m0 :
  well_formed pi -> 2 <= MAX -> on_grid pi x y ->
  let cell := grid_cell pi (cell_index pi x y) in
  let before := primaryKey :: grid_codes pi x y primaryKey cell
                ++ [ADDITIONAL_PROXIMITY_CHAR_DELIMITER_CODE] in
  let cands := candidates pi x y primaryKey cell in
  let m := fst (calculateNearbyKeyCodes pi x y primaryKey m0) in
  (forall k, Z.of_nat (length before) <= k < Z.min (Z.of_nat (length cands)) MAX ->
     (exists ac, ac ∈ additional_chars pi primaryKey /\ m !! k = Some ac)
     /\ forall j, 0 <= j < k -> m !! j <> m !! k)
  /\ (forall ac, ac ∈ additional_chars pi primaryKey ->
        Z.of_nat (length cands) <= MAX ->
        exists k, 0 <= k < Z.of_nat (length cands) /\ m !! k = Some ac).
Proof.
  intros Hwf Hmax Hg cell before cands m. subst m.
  rewrite (calculateNearbyKeyCodes_on_grid pi x y primaryKey m0 Hwf Hmax Hg).
  fold cell cands. cbv [fst].
  assert (cands = if getAdditionalCharsSize (mLocaleStr pi) primaryKey >? 0
                  then before ++ new_chars before (additional_chars pi primaryKey)
                  else primaryKey :: grid_codes pi x y primaryKey cell) as Hcands.
  { subst cands. unfold candidates. fold cell. destruct (_ >? 0); [|done].
    by rewrite add_new_new_chars. }
  assert (length before = S (length (primaryKey :: grid_codes pi x y primaryKey cell)))
    as Hbefore by (subst before; simpl; rewrite length_app; simpl; lia).
  split.
  - intros k Hk.
    destruct (Z.gtb_spec (getAdditionalCharsSize (mLocaleStr pi) primaryKey) 0)
      as [Hsize|Hsize]; [|rewrite Hcands in Hk; lia].
    set (new := new_chars before (additional_chars pi primaryKey)) in *.
    rewrite lookup_padded_code by lia. rewrite Hcands.
    rewrite Hcands, length_app in Hk.
    rewrite lookup_app_r by lia.
    destruct (lookup_lt_is_Some_2 new (Z.to_nat k - length before)) as [ac Hac]; [lia|].
    rewrite Hac. split.
    + exists ac. split; [|done].
      eapply new_chars_from, list_elem_of_lookup_2, Hac.
    + intros j Hj. rewrite lookup_padded_code by (rewrite ?length_app; lia).
      pose proof (new_chars_fresh _ _ _ _ Hac) as Hfresh.
      intros Heq. apply Hfresh. apply list_elem_of_lookup. exists (Z.to_nat j).
      destruct (decide (Z.to_nat j < length before)%nat) as [Hlt|Hge].
      * rewrite lookup_app_l in Heq by lia. by rewrite lookup_app_l by lia.
      * rewrite lookup_app_r in Heq by lia. rewrite lookup_app_r by lia.
        by rewrite lookup_take_lt by lia.
  - intros ac Hac Hlen.
    destruct (Z.gtb_spec (getAdditionalCharsSize (mLocaleStr pi) primaryKey) 0)
      as [Hsize|Hsize].
    2: { rewrite additional_chars_none in Hac by done. by apply elem_of_nil in Hac. }
    pose proof (new_chars_complete _ before _ Hac) as Hin. rewrite <- Hcands in Hin.
    apply list_elem_of_lookup in Hin as [i Hi].
    pose proof (lookup_lt_Some _ _ _ Hi).
    exists (Z.of_nat i). split; [lia|].
    rewrite lookup_padded_code by lia. by rewrite Nat2Z.id.
Qed.

(** C8, amended. For a touch point that falls into a grid cell the candidate
    list is the first [MAX_PROXIMITY_CHARS_SIZE] entries of: the primary
    code; the grid-derived codes; then, only when the locale table has
    additional characters for the primary code, the delimiter followed by
    the additional characters not yet in the list; then [NOT_A_CODE]
    padding. *)
Theorem candidate_list_shape x y primaryKey m0 :
  well_formed pi -> 2 <= MAX -> on_grid pi x y ->
  let found := grid_codes pi x y primaryKey (grid_cell pi (cell_index pi x y)) in
  let additional :=
    if getAdditionalCharsSize (mLocaleStr pi) primaryKey >? 0
    then ADDITIONAL_PROXIMITY_CHAR_DELIMITER_CODE
         :: new_chars (primaryKey :: found ++ [ADDITIONAL_PROXIMITY_CHAR_DELIMITER_CODE])
                      (additional_chars pi primaryKey)
    else [] in
  codes_of (fst (calculateNearbyKeyCodes pi x y primaryKey m0)) MAX
  = Some <$> take (Z.to_nat MAX)
               (primaryKey :: found ++ additional
                ++ replicate (Z.to_nat MAX) NOT_A_CODE).
Proof.
  intros Hwf Hmax Hg found additional.
  rewrite (calculateNearbyKeyCodes_on_grid pi x y primaryKey m0 Hwf Hmax Hg).
  rewrite candidates_shape. fold found additional. cbv [fst].
  rewrite codes_of_padded by lia. unfold pad_to_width.
  by rewrite <- !(assoc_L (++)).
Qed.

(** C10. [calculateNearbyKeyCodes] has no test on the sign of the
    coordinates.  It leaves the grid and the additional characters aside,
    writing the primary code and padding, when the start index is negative,
    and runs the scan whenever the start index is not negative.  Truncating
    division sends a coordinate above [-CELL_WIDTH] (resp. [-CELL_HEIGHT])
    to column (resp. row) 0, so such a touch point gets the start index of
    the point moved to the keyboard's edge, and the candidates are drawn
    from that cell. *)
Theorem small_negative_coordinates_reach_grid x y primaryKey m0 :
  well_formed pi -> 2 <= MAX -> Int32.in_range x -> Int32.in_range y ->
  (forall startIndex,
     getStartIndexFromCoordinates pi x y = Some startIndex ->
     calculateNearbyKeyCodes pi x y primaryKey m0
     = if startIndex <? 0
       then (store_from 0 (primaryKey :: replicate (Z.to_nat (MAX - 1)) NOT_A_CODE) m0,
             Returned tt)
       else match scan_grid_and_additional pi x y primaryKey startIndex
                    (push {| inputCodes := m0; insertPos := 0 |} primaryKey) with
            | Stop m o => (m, o)
            | Next st => (fill_not_a_code pi st, Returned tt)
            end)
  /\ (- CELL_WIDTH pi < x -> - CELL_HEIGHT pi < y ->
      on_grid pi (Z.max 0 x) (Z.max 0 y) ->
      let edge_cell := cell_index pi (Z.max 0 x) (Z.max 0 y) in
      let cands := candidates pi x y primaryKey (grid_cell pi edge_cell) in
      Z.quot x (CELL_WIDTH pi) = Z.quot (Z.max 0 x) (CELL_WIDTH pi)
      /\ Z.quot y (CELL_HEIGHT pi) = Z.quot (Z.max 0 y) (CELL_HEIGHT pi)
      /\ getStartIndexFromCoordinates pi x y = Some (edge_cell * MAX)
      /\ 0 <= edge_cell * MAX
      /\ calculateNearbyKeyCodes pi x y primaryKey m0
         = (store_from 0 (pad_to_width pi cands) m0,
            if Z.of_nat (length cands) <? MAX then Returned tt else exit_when_full)).
Proof.
  intros Hwf Hmax Hxr Hyr. split.
  - intros startIndex Hs.
    destruct (Z.ltb_spec startIndex 0) as [Hneg|Hnn].
    + rewrite (calculateNearbyKeyCodes_negative_start pi x y primaryKey startIndex m0)
        by (done || lia).
      by rewrite pad_to_width_primary by lia.
    + unfold calculateNearbyKeyCodes. rewrite Hs.
      by destruct (Z.geb_spec startIndex 0); [|lia].
  - intros Hx Hy Hedge edge_cell cands.
    assert (forall v w, 0 < w -> - w < v -> Z.quot v w = Z.quot (Z.max 0 v) w) as Hquot.
    { intros v w Hw Hv. destruct (Z.max_spec 0 v) as [[_ ->]|[Hle ->]]; [done|].
      rewrite Z.quot_0_l by lia.
      rewrite <- (Z.opp_involutive v), Z.quot_opp_l by lia.
      rewrite Z.quot_small by lia. done. }
    pose proof (Hquot x (CELL_WIDTH pi) (wf_cell_width pi Hwf) Hx) as Hqx.
    pose proof (Hquot y (CELL_HEIGHT pi) (wf_cell_height pi Hwf) Hy) as Hqy.
    assert (on_grid pi x y) as Hg.
    { destruct Hedge as (_ & _ & Hex & Hey).
      split; [done|split; [done|split; lia]]. }
    assert (cell_index pi x y = edge_cell) as Hcell
      by (subst edge_cell; unfold cell_index; by rewrite Hqx, Hqy).
    pose proof (cell_index_range pi x y Hg) as Hrange. rewrite Hcell in Hrange.
    repeat split; try done.
    + rewrite <- Hcell. by apply getStartIndexFromCoordinates_on_grid.
    + nia.
    + subst cands. rewrite <- Hcell. by apply calculateNearbyKeyCodes_on_grid.
Qed.

End candidate_list.

(** ** [hasSpaceProximity] *)

Section space.

Context `{Defines}.
Variable pi : ProximityInfo.

Local Abbreviation MAX := (MAX_PROXIMITY_CHARS_SIZE pi).

(** The loop returns at the first space code of the cell. *)
Lemma hasSpaceProximity_loop_spec startIndex : forall idx cell,
  Forall2 (fun i c => read (mProximityCharsArray pi) (Int32.add startIndex i) = Some c)
          idx cell ->
  snd (hasSpaceProximity_loop pi startIndex idx)
  = Returned (bool_decide (KEYCODE_SPACE ∈ cell)).
Proof.
  intros idx cell Hreads.
  induction Hreads as [|i c idx cell Hread _ IH]; simpl; [done|].
  rewrite Hread. destruct (Z.eqb_spec c KEYCODE_SPACE) as [->|Hne]; simpl.
  - by rewrite bool_decide_eq_true_2 by (apply list_elem_of_here).
  - destruct (hasSpaceProximity_loop pi startIndex idx) as [l r]. simpl in *.
    rewrite IH. f_equal. apply bool_decide_ext. rewrite elem_of_cons.
    split; [by right|intros [?|?]; [congruence|done]].
Qed.

Lemma hasSpaceProximity_on_grid x y :
  well_formed pi -> on_grid pi x y -> 0 <= x -> 0 <= y ->
  snd (hasSpaceProximity pi x y)
  = Returned (bool_decide (KEYCODE_SPACE ∈ grid_cell pi (cell_index pi x y))).
Proof.
  intros Hwf Hg Hx Hy. unfold hasSpaceProximity.
  destruct (Z.ltb_spec x 0); [lia|]. destruct (Z.ltb_spec y 0); [lia|]. simpl.
  rewrite (getStartIndexFromCoordinates_on_grid pi Hwf x y Hg).
  pose proof (cell_index_range pi x y Hg) as Hc.
  pose proof (cell_codes_on_grid pi Hwf _ Hc) as Hcell. apply mapM_Some in Hcell.
  pose proof (hasSpaceProximity_loop_spec _ _ _ Hcell) as Hloop.
  by destruct (hasSpaceProximity_loop _ _ _).
Qed.

Lemma hasSpaceProximity_negative x y :
  x < 0 \/ y < 0 ->
  hasSpaceProximity pi x y
  = if DEBUG_DICT then ([LogIllegalCoordinates x y], assert_false (Returned false))
    else ([], Returned false).
Proof.
  intros Hneg. unfold hasSpaceProximity.
  destruct (Z.ltb_spec x 0), (Z.ltb_spec y 0); simpl; done || lia.
Qed.

(** C5, amended. [hasSpaceProximity] returns true if and only if both
    coordinates are non-negative and the cell of the touch point holds the
    space code among its [MAX_PROXIMITY_CHARS_SIZE] entries.  For a negative
    coordinate it never consults the grid and never returns true: with
    [DEBUG_DICT] off it returns false and reports nothing; with [DEBUG_DICT]
    on it reports the illegal coordinates and reaches [assert(false)],
    returning false only if assertions are compiled out. *)
Theorem hasSpaceProximity_spec x y :
  well_formed pi -> (0 <= x -> 0 <= y -> on_grid pi x y) ->
  (snd (hasSpaceProximity pi x y) = Returned true
   <-> 0 <= x /\ 0 <= y /\ KEYCODE_SPACE ∈ grid_cell pi (cell_index pi x y))
  /\ (0 <= x -> 0 <= y ->
      exists b, snd (hasSpaceProximity pi x y) = Returned b)
  /\ (x < 0 \/ y < 0 ->
      hasSpaceProximity pi x y
      = if DEBUG_DICT
        then ([LogIllegalCoordinates x y], if NDEBUG then Returned false else AssertFailed)
        else ([], Returned false)).
Proof.
  intros Hwf Hg. split; [|split].
  - destruct (decide (x < 0 \/ y < 0)) as [Hneg|Hnn].
    + rewrite (hasSpaceProximity_negative x y Hneg). split; [|lia].
      unfold assert_false. by destruct DEBUG_DICT, NDEBUG.
    + rewrite hasSpaceProximity_on_grid by (done || lia || (apply Hg; lia)).
      split.
      * intros [= Hb]. apply bool_decide_eq_true in Hb. repeat split; [lia..|done].
      * intros (_ & _ & Hin). f_equal. by apply bool_decide_eq_true.
  - intros Hx Hy. rewrite hasSpaceProximity_on_grid by (done || by apply Hg).
    by eexists.
  - apply hasSpaceProximity_negative.
Qed.

End space.

(** ** The statements on concrete keyboards *)





(** C5, as stated, fails: in a release build the call at (-1,5) returns
    false and reports nothing; in a debug build with assertions on it
    reports the coordinates and stops at [assert(false)]. *)
Lemma hasSpaceProximity_negative_release_and_debug :
  hasSpaceProximity (H := release) (two_keys 4 20 [97; 32; -1; -1]) (-1) 5
  = ([], Returned false)
  /\ hasSpaceProximity (H := debug) (two_keys 4 20 [97; 32; -1; -1]) (-1) 5
     = ([LogIllegalCoordinates (-1) 5], AssertFailed).
Proof. split; reflexivity. Qed.

(** An instance: the cell of the touch at (5,5) holds the space code. *)
Lemma hasSpaceProximity_spec_witness :
  let pi := two_keys 4 20 [97; 32; -1; -1] in
  well_formed (H := release) pi /\ on_grid pi 5 5
  /\ snd (hasSpaceProximity (H := release) pi 5 5) = Returned true.
Proof.
  cbv zeta.
  assert (well_formed (H := release) (two_keys 4 20 [97; 32; -1; -1])) as Hwf
    by (apply two_keys_well_formed; [lia|reflexivity|unfold Int32.max_signed; lia]).
  assert (on_grid (two_keys 4 20 [97; 32; -1; -1]) 5 5) as Hg by on_grid_by_computation.
  refine (conj Hwf (conj Hg _)).
  apply (hasSpaceProximity_spec (H := release) (two_keys 4 20 [97; 32; -1; -1]) 5 5 Hwf
           (fun _ _ => Hg)).
  split; [lia|split; [lia|]].
  vm_compute. apply list_elem_of_further, list_elem_of_here.
Defined.

(** C6, as stated, fails: with [MAX_PROXIMITY_CHARS_SIZE] 1 the primary code
    goes to offset 0 and the first qualifying code of the cell to offset 1,
    past the one entry the buffer is meant to have. *)
Lemma one_slot_overrun :
  let pi := two_keys 1 10 [97] in
  MAX_PROXIMITY_CHARS_SIZE pi = 1
  /\ (∅ : gmap Z Z) !! 1 = None
  /\ fst (calculateNearbyKeyCodes (H := release) pi 5 5 98 ∅) !! 1 = Some 97.
Proof. cbv zeta. repeat split; vm_compute; reflexivity. Qed.

(** An instance: the touch at (9,5) on [two_keys] with four codes per list. *)
Lemma writes_stay_within_width_witness :
  let pi := two_keys 4 20 [97; 98; -1; -1] in
  2 <= MAX_PROXIMITY_CHARS_SIZE pi
  /\ same_outside 4 ∅ (fst (calculateNearbyKeyCodes (H := release) pi 9 5 97 ∅))
  /\ fst (calculateNearbyKeyCodes (H := release) pi 9 5 97 ∅) !! 3 = Some (-1)
  /\ snd (calculateNearbyKeyCodes (H := release) pi 9 5 97 ∅) = Returned tt.
Proof.
  cbv zeta.
  assert (well_formed (H := release) (two_keys 4 20 [97; 98; -1; -1])) as Hwf
    by (apply two_keys_well_formed; [lia|reflexivity|unfold Int32.max_signed; lia]).
  assert (on_grid (two_keys 4 20 [97; 98; -1; -1]) 9 5) as Hg by on_grid_by_computation.
  destruct (writes_stay_within_width (H := release) (two_keys 4 20 [97; 98; -1; -1])
              9 5 97 ∅ ltac:(simpl; lia)) as (Hsame & Hgrid & _).
  destruct (Hgrid Hwf Hg) as (_ & Hpad & _ & Hret).
  refine (conj _ (conj Hsame (conj _ (Hret eq_refl)))); [simpl; lia|].
  apply Hpad; [simpl; lia|vm_compute; discriminate].
Defined.

(** An instance: 'a' with the additional characters [accents]; 'b' is already
    in the list and the repeated 224 is appended once. *)
Lemma additional_chars_not_duplicated_witness :
  let pi := two_keys 8 20 [97; 98; -1; -1; -1; -1; -1; -1] in
  let m := fst (calculateNearbyKeyCodes (H := release_build accents) pi 9 5 97 ∅) in
  well_formed (H := release_build accents) pi /\ 2 <= 8 /\ on_grid pi 9 5
  /\ candidates (H := release_build accents) pi 9 5 97 (grid_cell pi (cell_index pi 9 5))
     = [97; 98; 2; 224; 225]
  /\ forall j, 0 <= j < 4 -> m !! j <> m !! 4.
Proof.
  cbv zeta.
  set (pi := two_keys 8 20 [97; 98; -1; -1; -1; -1; -1; -1]).
  assert (well_formed (H := release_build accents) pi) as Hwf
    by (apply two_keys_well_formed; [lia|reflexivity|unfold Int32.max_signed; lia]).
  assert (on_grid pi 9 5) as Hg by on_grid_by_computation.
  destruct (additional_chars_not_duplicated (H := release_build accents) pi
              9 5 97 ∅ Hwf ltac:(simpl; lia) Hg) as (Hnew & _).
  refine (conj Hwf (conj _ (conj Hg (conj _ _)))); [lia|vm_compute; reflexivity|].
  intros j Hj. by apply (Hnew 4 ltac:(vm_compute; split; [discriminate|reflexivity])).
Defined.

(** C8, as stated, fails: the example of the specification, one key and no
    additional characters, has no delimiter in its candidate list. *)
Lemma no_delimiter_without_additional :
  codes_of (fst (calculateNearbyKeyCodes (H := release) one_key 5 5 101 ∅)) 4
  = [Some 101; Some (-1); Some (-1); Some (-1)]
  /\ Some (ADDITIONAL_PROXIMITY_CHAR_DELIMITER_CODE (Defines := release))
     ∉ codes_of (fst (calculateNearbyKeyCodes (H := release) one_key 5 5 101 ∅)) 4.
Proof.
  split; [vm_compute; reflexivity|].
  apply (bool_decide_unpack _). vm_compute. exact I.
Qed.

(** An instance: the same resolution, as a list of eight codes. *)
Lemma candidate_list_shape_witness :
  let pi := two_keys 8 20 [97; 98; -1; -1; -1; -1; -1; -1] in
  well_formed (H := release_build accents) pi /\ 2 <= 8 /\ on_grid pi 9 5
  /\ codes_of (fst (calculateNearbyKeyCodes (H := release_build accents) pi 9 5 97 ∅)) 8
     = Some <$> [97; 98; 2; 224; 225; -1; -1; -1].
Proof.
  cbv zeta.
  set (pi := two_keys 8 20 [97; 98; -1; -1; -1; -1; -1; -1]).
  assert (well_formed (H := release_build accents) pi) as Hwf
    by (apply two_keys_well_formed; [lia|reflexivity|unfold Int32.max_signed; lia]).
  assert (on_grid pi 9 5) as Hg by on_grid_by_computation.
  refine (conj Hwf (conj _ (conj Hg _))); [lia|].
  etrans;
    [exact (candidate_list_shape (H := release_build accents) pi 9 5 97 ∅ Hwf
              ltac:(simpl; lia) Hg)|].
  vm_compute. reflexivity.
Defined.

(** An instance: the touch at (-1,5) on [two_keys] is resolved in cell 0. *)
Lemma small_negative_coordinates_reach_grid_witness :
  let pi := two_keys 4 20 [97; 98; -1; -1] in
  well_formed (H := release) pi /\ 2 <= 4
  /\ Int32.in_range (-1) /\ Int32.in_range 5
  /\ - CELL_WIDTH pi < -1 /\ - CELL_HEIGHT pi < 5 /\ on_grid pi 0 5
  /\ getStartIndexFromCoordinates pi (-1) 5 = Some 0
  /\ fst (calculateNearbyKeyCodes (H := release) pi (-1) 5 97 ∅)
     = store_from 0 [97; 98; -1; -1] ∅.
Proof.
  cbv zeta.
  set (pi := two_keys 4 20 [97; 98; -1; -1]).
  assert (well_formed (H := release) pi) as Hwf
    by (apply two_keys_well_formed; [lia|reflexivity|unfold Int32.max_signed; lia]).
  assert (on_grid pi 0 5) as Hg by on_grid_by_computation.
  assert (Int32.in_range (-1)) as Hx
    by (unfold Int32.in_range, Int32.min_signed, Int32.max_signed; lia).
  assert (Int32.in_range 5) as Hy
    by (unfold Int32.in_range, Int32.min_signed, Int32.max_signed; lia).
  destruct (small_negative_coordinates_reach_grid (H := release) pi (-1) 5 97 ∅
              Hwf ltac:(simpl; lia) Hx Hy) as (_ & Hsmall).
  destruct (Hsmall ltac:(simpl; lia) ltac:(simpl; lia) Hg) as (_ & _ & Hstart & _ & Hrun).
  refine (conj Hwf (conj _ (conj Hx (conj Hy (conj _ (conj _ (conj Hg (conj Hstart _))))))));
    [lia|simpl; lia|simpl; lia|].
  rewrite Hrun. vm_compute. reflexivity.
Defined.

(** ** The flag bytes of [unigram_dictionary.h] *)

Section flag_bytes.

Import UnigramDictionary.

(** A property of every byte, decided by running through the 256 of them. *)
Lemma every_byte (P : Z -> Prop) `{!forall b, Decision (P b)} :
  bool_decide (Forall P (seqZ 0 256)) = true -> forall b, 0 <= b < 256 -> P b.
Proof.
  intros Hall b Hb. apply bool_decide_eq_true in Hall.
  rewrite Forall_seqZ in Hall. apply Hall. lia.
Qed.

(** In a group's flag byte the address type field always holds one of the
    four named types, each presence flag lies outside that field, and
    setting or clearing a presence flag leaves the address type and the other
    presence flags as they were. *)
Theorem group_flag_byte_layout b :
  0 <= b < 256 ->
  (Z.land b MASK_GROUP_ADDRESS_TYPE = FLAG_GROUP_ADDRESS_TYPE_NOADDRESS
   \/ Z.land b MASK_GROUP_ADDRESS_TYPE = FLAG_GROUP_ADDRESS_TYPE_ONEBYTE
   \/ Z.land b MASK_GROUP_ADDRESS_TYPE = FLAG_GROUP_ADDRESS_TYPE_TWOBYTES
   \/ Z.land b MASK_GROUP_ADDRESS_TYPE = FLAG_GROUP_ADDRESS_TYPE_THREEBYTES)
  /\ Forall (fun f =>
        Z.land (Z.lor b f) MASK_GROUP_ADDRESS_TYPE = Z.land b MASK_GROUP_ADDRESS_TYPE
        /\ Z.land (Z.land b (Z.lnot f)) MASK_GROUP_ADDRESS_TYPE
           = Z.land b MASK_GROUP_ADDRESS_TYPE
        /\ Z.land (Z.lor b f) f = f
        /\ Z.land (Z.land b (Z.lnot f)) f = 0
        /\ Forall (fun g => g = f
                     \/ (Z.land (Z.lor b f) g = Z.land b g
                         /\ Z.land (Z.land b (Z.lnot f)) g = Z.land b g))
                  group_presence_flags)
      group_presence_flags.
Proof.
  cbv zeta. revert b.
  eapply every_byte. vm_compute. reflexivity.
Qed.

(** An attribute's flag byte splits without loss into the has-next bit, the
    sign bit, the two-bit address type and the four-bit frequency: the four
    fields are disjoint, their union is the byte, the frequency is at most 15,
    and the address type is one of the three named types or 0, which has no
    name. *)
Theorem attribute_flag_byte_layout b :
  0 <= b < 256 ->
  let has_next := Z.land b FLAG_ATTRIBUTE_HAS_NEXT in
  let negative := Z.land b FLAG_ATTRIBUTE_OFFSET_NEGATIVE in
  let address_type := Z.land b MASK_ATTRIBUTE_ADDRESS_TYPE in
  let frequency := Z.land b MASK_ATTRIBUTE_FREQUENCY in
  Z.lor has_next (Z.lor negative (Z.lor address_type frequency)) = b
  /\ has_next + negative + address_type + frequency = b
  /\ 0 <= frequency <= 15
  /\ (address_type = 0
      \/ address_type = FLAG_ATTRIBUTE_ADDRESS_TYPE_ONEBYTE
      \/ address_type = FLAG_ATTRIBUTE_ADDRESS_TYPE_TWOBYTES
      \/ address_type = FLAG_ATTRIBUTE_ADDRESS_TYPE_THREEBYTES).
Proof.
  cbv zeta. revert b.
  eapply every_byte. vm_compute. reflexivity.
Qed.

End flag_bytes.

(** ** [calculateNearbyKeyCodes] on any input *)

Section any_input.

Context `{Defines}.
Variable pi : ProximityInfo.

Local Abbreviation MAX := (MAX_PROXIMITY_CHARS_SIZE pi).

Section invariant.

Variable I : cursor -> Prop.
Variable Q : gmap Z Z -> Prop.
Hypothesis Happend : forall st c, I st -> flow_inv I Q (return_if_full pi (push st c)).
Hypothesis Hleave : forall st, I st -> Q (inputCodes st).
Hypothesis Hfill : forall st, I st -> Q (fill_not_a_code pi st).

Lemma for_each_inv body :
  (forall i st, I st -> flow_inv I Q (body i st)) ->
  forall idx st, I st -> flow_inv I Q (for_each body idx st).
Proof.
  intros Hbody idx. induction idx as [|i idx IH]; intros st Hst; simpl; [done|].
  specialize (Hbody i st Hst). destruct (body i st); [by apply IH|done].
Qed.

Lemma grid_body_inv x y primaryKey startIndex i st :
  I st -> flow_inv I Q (grid_body pi x y primaryKey startIndex i st).
Proof.
  intros Hst. unfold grid_body.
  destruct (read _ _); [|by apply Hleave].
  destruct (_ || _); [done|].
  destruct (getKeyIndex _ _); [|by apply Hleave].
  destruct (squaredDistanceToEdge _ _ _ _); [|by apply Hleave].
  destruct (_ || _); [by apply Happend|done].
Qed.

Lemma additional_body_inv chars j st :
  I st -> flow_inv I Q (additional_body pi chars j st).
Proof.
  intros Hst. unfold additional_body.
  destruct (read _ _); [|by apply Hleave].
  destruct (scan _ _ _ _); [|by apply Hleave].
  destruct (_ <? _); [done|by apply Happend].
Qed.

Lemma scan_grid_and_additional_inv x y primaryKey startIndex st :
  I st -> flow_inv I Q (scan_grid_and_additional pi x y primaryKey startIndex st).
Proof.
  intros Hst. unfold scan_grid_and_additional.
  pose proof (for_each_inv _ (grid_body_inv x y primaryKey startIndex)
                (seqZ 0 MAX) st Hst) as Hgrid.
  destruct (for_each _ _ st) as [st1|]; [|done].
  destruct (_ >? 0); [|done].
  pose proof (Happend st1 ADDITIONAL_PROXIMITY_CHAR_DELIMITER_CODE Hgrid) as Hdelim.
  destruct (return_if_full _ _) as [st2|]; [|done].
  by apply for_each_inv; [intros; apply additional_body_inv|].
Qed.

Lemma calculateNearbyKeyCodes_inv x y primaryKey m0 :
  I (push {| inputCodes := m0; insertPos := 0 |} primaryKey) ->
  Q (fst (calculateNearbyKeyCodes pi x y primaryKey m0)).
Proof.
  intros Hst0. unfold calculateNearbyKeyCodes.
  destruct (getStartIndexFromCoordinates pi x y) as [startIndex|]; [|by apply Hleave].
  destruct (startIndex >=? 0).
  - pose proof (scan_grid_and_additional_inv x y primaryKey startIndex _ Hst0) as Hrun.
    destruct (scan_grid_and_additional _ _ _ _ _ _) as [st|]; simpl; [|done].
    by apply Hfill.
  - simpl. by apply Hfill.
Qed.

End invariant.

Lemma fill_not_a_code_lookup st k :
  fill_not_a_code pi st !! k
  = if decide (insertPos st <= k < MAX) then Some NOT_A_CODE else inputCodes st !! k.
Proof.
  unfold fill_not_a_code.
  rewrite seqZ_to_nat, store_from_fill, store_from_lookup, length_replicate.
  destruct (decide (insertPos st <= k < MAX)) as [Hk|Hk].
  - rewrite decide_True by lia. apply lookup_replicate_2. lia.
  - by rewrite decide_False by lia.
Qed.

(** Whatever the object, the coordinates, the width and the buffer, and
    however the run ends (return, failed assertion or fault), offset 0 of the
    buffer holds the primary code afterwards. *)
Theorem primary_code_always_first x y primaryKey m0 :
  fst (calculateNearbyKeyCodes pi x y primaryKey m0) !! 0 = Some primaryKey.
Proof.
  apply (calculateNearbyKeyCodes_inv
           (fun st => 1 <= insertPos st /\ inputCodes st !! 0 = Some primaryKey)
           (fun m => m !! 0 = Some primaryKey)).
  - intros st c [Hpos H0]. unfold return_if_full.
    destruct (_ >=? _); simpl.
    + by rewrite lookup_insert_ne by lia.
    + split; [lia|]. by rewrite lookup_insert_ne by lia.
  - by intros st [_ H0].
  - intros st [Hpos H0]. rewrite fill_not_a_code_lookup.
    by rewrite decide_False by lia.
  - split; [simpl; lia|]. simpl. apply lookup_insert_eq.
Qed.

(** Whatever the object, the coordinates and the buffer, and also for a
    width below 2, no write lands outside the offsets below
    [MAX_PROXIMITY_CHARS_SIZE] or below 2, whichever is larger: the overrun
    of a buffer of [MAX_PROXIMITY_CHARS_SIZE] entries is never more than the
    entries 0 and 1. *)
Theorem writes_overrun_at_most_two x y primaryKey m0 :
  same_outside (Z.max 2 MAX) m0 (fst (calculateNearbyKeyCodes pi x y primaryKey m0)).
Proof.
  apply (calculateNearbyKeyCodes_inv
           (fun st => 1 <= insertPos st < Z.max 2 MAX
                      /\ same_outside (Z.max 2 MAX) m0 (inputCodes st))
           (same_outside (Z.max 2 MAX) m0)).
  - intros st c [Hpos Hsame]. unfold return_if_full. simpl.
    assert (same_outside (Z.max 2 MAX) m0 (<[insertPos st := c]> (inputCodes st)))
      as Hsame'.
    { intros k Hk. rewrite lookup_insert_ne by lia. by apply Hsame. }
    destruct (Z.geb_spec (insertPos st + 1) MAX); simpl; [done|].
    split; [lia|done].
  - by intros st [_ Hsame].
  - intros st [Hpos Hsame] k Hk. rewrite fill_not_a_code_lookup.
    rewrite decide_False by lia. by apply Hsame.
  - split; [simpl; lia|]. intros k Hk. simpl. by rewrite lookup_insert_ne by lia.
Qed.

End any_input.

(** ** The code-to-key table *)

Section code_table.

Context `{Defines}.

Lemma initializeCodeToKeyIndex_loop_lookup codes c :
  0 <= c <= MAX_CHAR_CODE ->
  forall idx table table' v,
  Z.of_nat (length table) = MAX_CHAR_CODE + 1 ->
  initializeCodeToKeyIndex_loop codes idx table = Some table' ->
  table' !! Z.to_nat c = Some v ->
  (table !! Z.to_nat c = Some v /\ Forall (fun i => read codes i <> Some c) idx)
  \/ (exists pre post,
        idx = pre ++ v :: post /\ read codes v = Some c
        /\ Forall (fun j => read codes j <> Some c) post).
Proof.
  intros Hc. induction idx as [|i idx IH]; intros table table' v Hlen; simpl.
  - intros [= <-] Hv. left. by split.
  - destruct (read codes i) as [code|] eqn:Hread; [|done].
    intros Hloop Hv.
    set (table1 := if (0 <=? code) && (code <=? MAX_CHAR_CODE)
                   then <[Z.to_nat code := i]> table else table) in Hloop.
    assert (Z.of_nat (length table1) = MAX_CHAR_CODE + 1) as Hlen1.
    { subst table1. destruct (_ && _); [|done]. by rewrite length_insert. }
    destruct (IH table1 table' v Hlen1 Hloop Hv)
      as [[Hv1 Hrest]|(pre & post & -> & Hcode & Hpost)].
    + destruct (decide (code = c)) as [->|Hne].
      * right. exists [], idx. subst table1.
        destruct (Z.leb_spec 0 c), (Z.leb_spec c MAX_CHAR_CODE); try lia. simpl in Hv1.
        rewrite list_lookup_insert_eq in Hv1 by lia.
        injection Hv1 as <-. by repeat split.
      * left. split.
        -- subst table1. destruct (Z.leb_spec 0 code), (Z.leb_spec code MAX_CHAR_CODE);
             simpl in Hv1; try done.
           by rewrite list_lookup_insert_ne in Hv1 by lia.
        -- apply Forall_cons. split; [|done]. rewrite Hread. congruence.
    + right. by exists (i :: pre), post.
Qed.

Lemma initializeCodeToKeyIndex_loop_length codes : forall idx table table',
  initializeCodeToKeyIndex_loop codes idx table = Some table' ->
  length table' = length table.
Proof.
  induction idx as [|i idx IH]; intros table table'; simpl.
  - by intros [= <-].
  - destruct (read codes i) as [code|]; [|done].
    intros Hloop. rewrite (IH _ _ Hloop).
    destruct (_ && _); [|done]. apply length_insert.
Qed.

Lemma seqZ_split_after n pre v post :
  seqZ 0 n = pre ++ v :: post ->
  0 <= v < n /\ forall j, v < j < n -> j ∈ post.
Proof.
  intros Hsplit.
  assert (v = Z.of_nat (length pre) /\ Z.of_nat (length pre) < n) as [-> Hlt].
  { pose proof (list_lookup_middle pre post v (length pre) eq_refl) as Hv.
    rewrite <- Hsplit in Hv. apply lookup_seqZ in Hv. lia. }
  split; [lia|]. intros j Hj.
  assert (j ∈ seqZ 0 n) as Hin by (apply elem_of_seqZ; lia).
  rewrite Hsplit in Hin. apply elem_of_app in Hin as [Hin|Hin].
  - apply list_elem_of_lookup in Hin as [k Hk].
    pose proof (lookup_lt_Some _ _ _ Hk).
    assert (seqZ 0 n !! k = Some j) as Hk'
      by (rewrite Hsplit; by rewrite lookup_app_l by lia).
    apply lookup_seqZ in Hk'. lia.
  - apply elem_of_cons in Hin as [->|Hin]; [lia|done].
Qed.

(** The table after [initializeCodeToKeyIndex]: the entry of a code is -1 if
    no key carries the code and the index of the last key carrying it
    otherwise. *)
Lemma initializeCodeToKeyIndex_lookup keyCount codes table c :
  initializeCodeToKeyIndex keyCount codes = Some table ->
  0 <= c <= MAX_CHAR_CODE ->
  exists v, table !! Z.to_nat c = Some v
    /\ ((v = -1 /\ forall i, 0 <= i < keyCount -> read codes i <> Some c)
        \/ (0 <= v < keyCount /\ read codes v = Some c
            /\ forall j, v < j < keyCount -> read codes j <> Some c)).
Proof.
  unfold initializeCodeToKeyIndex. intros Hinit Hc.
  assert (Z.of_nat (length (replicate (Z.to_nat (MAX_CHAR_CODE + 1)) (-1)))
          = MAX_CHAR_CODE + 1) as Hlen by (rewrite length_replicate; lia).
  pose proof (initializeCodeToKeyIndex_loop_length codes _ _ _ Hinit) as Hlen'.
  destruct (lookup_lt_is_Some_2 table (Z.to_nat c)) as [v Hv]; [lia|].
  exists v. split; [done|].
  destruct (initializeCodeToKeyIndex_loop_lookup codes c Hc _ _ _ v Hlen Hinit Hv)
    as [[Hv0 Hnone]|(pre & post & Hsplit & Hcode & Hpost)].
  - left. apply lookup_replicate in Hv0 as [-> _]. split; [done|].
    intros i Hi. rewrite Forall_seqZ in Hnone. apply Hnone. lia.
  - right. destruct (seqZ_split_after _ _ _ _ Hsplit) as [Hrange Hafter].
    repeat split; [lia..|done|].
    intros j Hj. rewrite Forall_forall in Hpost. by apply Hpost, Hafter.
Qed.

Lemma initializeCodeToKeyIndex_loop_is_Some codes : forall idx table,
  is_Some (initializeCodeToKeyIndex_loop codes idx table)
  <-> Forall (fun i => is_Some (read codes i)) idx.
Proof.
  induction idx as [|i idx IH]; intros table; simpl.
  - split; [by constructor|by eexists].
  - rewrite Forall_cons. destruct (read codes i) as [code|].
    + rewrite IH. split; [by split; [eexists|]|by intros [_ ?]].
    + split; [by intros [? ?]|by intros [[? ?] _]].
Qed.

(** [initializeCodeToKeyIndex] reads the codes of [keyCount] keys, so it
    needs that many; the table it builds has [MAX_CHAR_CODE + 1] entries and
    inverts the key codes: the entry of a code is -1 when no key carries the
    code, and the index of the last key that carries it otherwise. *)
Theorem code_table_inverts_key_codes keyCount codes :
  (is_Some (initializeCodeToKeyIndex keyCount codes)
   <-> keyCount <= Z.of_nat (length codes))
  /\ forall table,
       initializeCodeToKeyIndex keyCount codes = Some table ->
       length table = Z.to_nat (MAX_CHAR_CODE + 1)
       /\ forall c, 0 <= c <= MAX_CHAR_CODE ->
            exists v, table !! Z.to_nat c = Some v
              /\ ((v = -1 /\ forall i, 0 <= i < keyCount -> read codes i <> Some c)
                  \/ (0 <= v < keyCount /\ read codes v = Some c
                      /\ forall j, v < j < keyCount -> read codes j <> Some c)).
Proof.
  split.
  - unfold initializeCodeToKeyIndex.
    rewrite initializeCodeToKeyIndex_loop_is_Some, Forall_seqZ. split.
    + intros Hall. destruct (Z.le_gt_cases keyCount 0) as [|Hpos]; [lia|].
      destruct (Hall (keyCount - 1) ltac:(lia)) as [code Hcode].
      unfold read in Hcode. destruct (_ <? 0); [done|].
      apply lookup_lt_Some in Hcode. lia.
    + intros Hlen i Hi. apply read_Some. lia.
  - intros table Hinit. split.
    + unfold initializeCodeToKeyIndex in Hinit.
      rewrite (initializeCodeToKeyIndex_loop_length _ _ _ _ Hinit).
      apply length_replicate.
    + intros c Hc. by apply initializeCodeToKeyIndex_lookup.
Qed.

(** [getKeyIndex] over a table built by [initializeCodeToKeyIndex] never
    faults.  It answers [NOT_AN_INDEX] when the object has no keys or the
    base lower-case form of the code is above [MAX_CHAR_CODE]; otherwise it
    answers -1 when no key carries that form, and else the index of the last
    key that carries it. *)
Theorem getKeyIndex_finds_last_key pi c :
  initializeCodeToKeyIndex (KEY_COUNT pi) (mKeyCharCodes pi) = Some (mCodeToKeyIndex pi) ->
  let baseLowerC := Int32.to_uint16 (toBaseLowerCase c) in
  exists k, getKeyIndex pi c = Some k
    /\ ((k = NOT_AN_INDEX /\ (KEY_COUNT pi = 0 \/ MAX_CHAR_CODE < baseLowerC))
        \/ (KEY_COUNT pi <> 0 /\ baseLowerC <= MAX_CHAR_CODE
            /\ ((k = -1
                 /\ forall i, 0 <= i < KEY_COUNT pi ->
                      read (mKeyCharCodes pi) i <> Some baseLowerC)
                \/ (0 <= k < KEY_COUNT pi
                    /\ read (mKeyCharCodes pi) k = Some baseLowerC
                    /\ forall j, k < j < KEY_COUNT pi ->
                         read (mKeyCharCodes pi) j <> Some baseLowerC)))).
Proof.
  intros Hinit baseLowerC. unfold getKeyIndex. fold baseLowerC.
  destruct (Z.eqb_spec (KEY_COUNT pi) 0) as [Hzero|Hkeys].
  { exists NOT_AN_INDEX. split; [done|]. left. split; [done|by left]. }
  destruct (Z.gtb_spec baseLowerC MAX_CHAR_CODE) as [Hgt|Hle].
  { exists NOT_AN_INDEX. split; [done|]. left. split; [done|by right]. }
  assert (0 <= baseLowerC) as Hnn
    by (subst baseLowerC; unfold Int32.to_uint16; apply Z.mod_pos_bound; lia).
  destruct (initializeCodeToKeyIndex_lookup _ _ _ baseLowerC Hinit ltac:(lia))
    as (v & Hv & Hcases).
  exists v. split.
  - unfold read. by destruct (Z.ltb_spec baseLowerC 0); [lia|].
  - right. by repeat split.
Qed.

End code_table.

(** ** What the constructor builds *)

Section constructed.

Context `{Defines}.

Lemma copyOrFillZero_is_Some from n :
  is_Some (copyOrFillZero from n) <-> 0 <= n /\ has_entries from n.
Proof.
  unfold copyOrFillZero, has_entries. destruct from as [l|].
  - destruct (Z.leb_spec 0 n), (Z.leb_spec n (Z.of_nat (length l))); simpl;
      (split; [intros [? ?]; done || lia|intros [? ?]; (by eexists) || lia]).
  - destruct (Z.leb_spec 0 n);
      (split; [intros [? ?]; done || lia|intros [? ?]; (by eexists) || lia]).
Qed.

Lemma div_is_Some a b : is_Some (Int32.div a b) <-> Int32.div_defined a b.
Proof.
  unfold Int32.div, Int32.div_defined.
  destruct (Z.eqb_spec b 0) as [->|Hb].
  { split; [by intros [? ?]|by intros [? _]]. }
  destruct (Z.eqb_spec a Int32.min_signed) as [->|Ha],
           (Z.eqb_spec b (-1)) as [->|Hb']; simpl.
  - split; [by intros [? ?]|]. intros [_ Hne]. by destruct (Hne eq_refl).
  - split; [done|by eexists].
  - split; [done|by eexists].
  - split; [done|by eexists].
Qed.

(** The least [int] over -1: the quotient 2^31 is not an [int]. *)
Example div_least_int_by_minus_one : Int32.div Int32.min_signed (-1) = None.
Proof. reflexivity. Qed.

(** The start index exists exactly when both of its divisions are defined:
    a cell size of 0 faults, and so does a coordinate that is the least
    [int] over a cell size of -1. *)
Lemma getStartIndexFromCoordinates_defined pi x y :
  is_Some (getStartIndexFromCoordinates pi x y)
  <-> Int32.div_defined y (CELL_HEIGHT pi) /\ Int32.div_defined x (CELL_WIDTH pi).
Proof.
  rewrite <- !div_is_Some. unfold getStartIndexFromCoordinates.
  destruct (Int32.div y _) as [row|], (Int32.div x _) as [col|].
  - split; [by split; eexists|by eexists].
  - split; [by intros [? ?]|by intros [_ [? ?]]].
  - split; [by intros [? ?]|by intros [[? ?] _]].
  - split; [by intros [? ?]|by intros [[? ?] _]].
Qed.

(** Where a division of the start index is undefined,
    [calculateNearbyKeyCodes] faults right after writing the primary code. *)
Lemma calculateNearbyKeyCodes_undefined_division pi x y primaryKey m0 :
  ~ (Int32.div_defined y (CELL_HEIGHT pi) /\ Int32.div_defined x (CELL_WIDTH pi)) ->
  calculateNearbyKeyCodes pi x y primaryKey m0 = (<[0 := primaryKey]> m0, Fault).
Proof.
  intros Hnot. unfold calculateNearbyKeyCodes.
  destruct (getStartIndexFromCoordinates pi x y) as [startIndex|] eqn:Hs; [|done].
  destruct Hnot. apply getStartIndexFromCoordinates_defined. by eexists.
Qed.

Section arguments.

Variables (localeStr : string)
  (maxProximityCharsSize keyboardWidth keyboardHeight gridWidth gridHeight
   mostCommonKeyWidth : Z)
  (proximityCharsArray : list Z) (keyCount : Z)
  (keyXCoordinates keyYCoordinates keyWidths keyHeights keyCharCodes
   sweetSpotCenterXs sweetSpotCenterYs sweetSpotRadii : option (list Z)).

Local Abbreviation built :=
  (snd (new_ProximityInfo localeStr maxProximityCharsSize keyboardWidth keyboardHeight
          gridWidth gridHeight mostCommonKeyWidth proximityCharsArray keyCount
          keyXCoordinates keyYCoordinates keyWidths keyHeights keyCharCodes
          sweetSpotCenterXs sweetSpotCenterYs sweetSpotRadii)).

Local Abbreviation keys := (Z.min keyCount MAX_KEY_COUNT_IN_A_KEYBOARD).
Local Abbreviation gridLength :=
  (Int32.mul (Int32.mul gridWidth gridHeight) maxProximityCharsSize).
Local Abbreviation widthDividend :=
  (Int32.sub (Int32.add keyboardWidth gridWidth) 1).
Local Abbreviation heightDividend :=
  (Int32.sub (Int32.add keyboardHeight gridHeight) 1).

(** The members of a constructed object, read back from the arguments. *)
Lemma new_ProximityInfo_fields pi :
  built = Returned pi ->
  MAX_PROXIMITY_CHARS_SIZE pi = maxProximityCharsSize
  /\ GRID_WIDTH pi = gridWidth /\ GRID_HEIGHT pi = gridHeight
  /\ Int32.div (Int32.sub (Int32.add keyboardWidth gridWidth) 1) gridWidth
     = Some (CELL_WIDTH pi)
  /\ Int32.div (Int32.sub (Int32.add keyboardHeight gridHeight) 1) gridHeight
     = Some (CELL_HEIGHT pi)
  /\ KEY_COUNT pi = keys
  /\ copyOrFillZero (Some proximityCharsArray) gridLength = Some (mProximityCharsArray pi)
  /\ copyOrFillZero keyCharCodes keys = Some (mKeyCharCodes pi)
  /\ initializeCodeToKeyIndex (KEY_COUNT pi) (mKeyCharCodes pi) = Some (mCodeToKeyIndex pi).
Proof.
  unfold new_ProximityInfo.
  destruct (Int32.div _ gridWidth) as [cellWidth|]; [|done].
  destruct (Int32.div _ gridHeight) as [cellHeight|]; [|done].
  cbv [snd].
  destruct (copyOrFillZero (Some proximityCharsArray) _) as [prox|]; [|done].
  destruct (copyOrFillZero keyXCoordinates _) as [xs|]; [|done].
  destruct (copyOrFillZero keyYCoordinates _) as [ys|]; [|done].
  destruct (copyOrFillZero keyWidths _) as [ws|]; [|done].
  destruct (copyOrFillZero keyHeights _) as [hs|]; [|done].
  destruct (copyOrFillZero keyCharCodes _) as [codes|]; [|done].
  destruct (copyOrFillZero sweetSpotCenterXs _) as [centerXs|]; [|done].
  destruct (copyOrFillZero sweetSpotCenterYs _) as [centerYs|]; [|done].
  destruct (copyOrFillZero sweetSpotRadii _) as [radii|]; [|done].
  destruct (initializeCodeToKeyIndex _ codes) as [table|] eqn:Htable; [|done].
  intros [= <-]. by repeat split.
Qed.

(** The constructor returns an object exactly when both divisions of the
    member initialisers are defined (a grid dimension is not 0, and is not -1
    under the least [int] as dividend), the proximity array holds the whole
    grid, the key count is not negative and each of the eight key arrays
    that is not null holds that many entries; otherwise it faults.  It never
    fails an assertion, and it logs only once both divisions are through. *)
Theorem new_ProximityInfo_returns :
  ((exists pi, built = Returned pi)
   <-> Int32.div_defined widthDividend gridWidth
       /\ Int32.div_defined heightDividend gridHeight
       /\ 0 <= gridLength <= Z.of_nat (length proximityCharsArray)
       /\ 0 <= keys
       /\ has_entries keyXCoordinates keys /\ has_entries keyYCoordinates keys
       /\ has_entries keyWidths keys /\ has_entries keyHeights keys
       /\ has_entries keyCharCodes keys
       /\ has_entries sweetSpotCenterXs keys /\ has_entries sweetSpotCenterYs keys
       /\ has_entries sweetSpotRadii keys)
  /\ ((exists pi, built = Returned pi) \/ built = Fault)
  /\ ((Int32.div_defined widthDividend gridWidth
       /\ Int32.div_defined heightDividend gridHeight)
      \/ fst (new_ProximityInfo localeStr maxProximityCharsSize keyboardWidth keyboardHeight
             gridWidth gridHeight mostCommonKeyWidth proximityCharsArray keyCount
             keyXCoordinates keyYCoordinates keyWidths keyHeights keyCharCodes
             sweetSpotCenterXs sweetSpotCenterYs sweetSpotRadii) = []).
Proof.
  unfold new_ProximityInfo.
  pose proof (div_is_Some widthDividend gridWidth) as Hw.
  pose proof (div_is_Some heightDividend gridHeight) as Hh.
  pose proof (copyOrFillZero_is_Some (Some proximityCharsArray) gridLength) as Hp.
  pose proof (copyOrFillZero_is_Some keyXCoordinates keys) as Hxs.
  pose proof (copyOrFillZero_is_Some keyYCoordinates keys) as Hys.
  pose proof (copyOrFillZero_is_Some keyWidths keys) as Hws.
  pose proof (copyOrFillZero_is_Some keyHeights keys) as Hhs.
  pose proof (copyOrFillZero_is_Some keyCharCodes keys) as Hcs.
  pose proof (copyOrFillZero_is_Some sweetSpotCenterXs keys) as Hsx.
  pose proof (copyOrFillZero_is_Some sweetSpotCenterYs keys) as Hsy.
  pose proof (copyOrFillZero_is_Some sweetSpotRadii keys) as Hsr.
  simpl has_entries in Hp.
  destruct (Int32.div _ gridWidth) as [cellWidth|].
  2: { cbv [fst snd]. split; [|split; by right]. split; [by intros [? ?]|].
       intros (Hd & _). by destruct (proj2 Hw Hd). }
  destruct (Int32.div _ gridHeight) as [cellHeight|].
  2: { cbv [fst snd]. split; [|split; by right]. split; [by intros [? ?]|].
       intros (_ & Hd & _). by destruct (proj2 Hh Hd). }
  cbv [fst snd].
  assert (Int32.div_defined widthDividend gridWidth) as Hwd
    by (apply Hw; by eexists).
  assert (Int32.div_defined heightDividend gridHeight) as Hhd
    by (apply Hh; by eexists).
  split; [|split]; [| |by left].
  2: { repeat match goal with
              | |- context [match ?c with Some _ => _ | None => _ end] =>
                  destruct c; [|by right]
              end.
       left. by eexists. }
  destruct (copyOrFillZero (Some proximityCharsArray) _) as [prox|].
  2: { split; [by intros [? ?]|].
       intros (_ & _ & ? & _). by destruct (proj2 Hp). }
  destruct (copyOrFillZero keyXCoordinates _) as [xs|].
  2: { split; [by intros [? ?]|].
       intros (_ & _ & _ & ? & ? & _). by destruct (proj2 Hxs). }
  destruct (copyOrFillZero keyYCoordinates _) as [ys|].
  2: { split; [by intros [? ?]|].
       intros (_ & _ & _ & ? & _ & ? & _). by destruct (proj2 Hys). }
  destruct (copyOrFillZero keyWidths _) as [ws|].
  2: { split; [by intros [? ?]|].
       intros (_ & _ & _ & ? & _ & _ & ? & _). by destruct (proj2 Hws). }
  destruct (copyOrFillZero keyHeights _) as [hs|].
  2: { split; [by intros [? ?]|].
       intros (_ & _ & _ & ? & _ & _ & _ & ? & _). by destruct (proj2 Hhs). }
  destruct (copyOrFillZero keyCharCodes _) as [codes|] eqn:Hcodes.
  2: { split; [by intros [? ?]|].
       intros (_ & _ & _ & ? & _ & _ & _ & _ & ? & _). by destruct (proj2 Hcs). }
  destruct (copyOrFillZero sweetSpotCenterXs _) as [centerXs|].
  2: { split; [by intros [? ?]|].
       intros (_ & _ & _ & ? & _ & _ & _ & _ & _ & ? & _). by destruct (proj2 Hsx). }
  destruct (copyOrFillZero sweetSpotCenterYs _) as [centerYs|].
  2: { split; [by intros [? ?]|].
       intros (_ & _ & _ & ? & _ & _ & _ & _ & _ & _ & ? & _).
       by destruct (proj2 Hsy). }
  destruct (copyOrFillZero sweetSpotRadii _) as [radii|].
  2: { split; [by intros [? ?]|].
       intros (_ & _ & _ & ? & _ & _ & _ & _ & _ & _ & _ & ?).
       by destruct (proj2 Hsr). }
  destruct (initializeCodeToKeyIndex keys codes) as [table|] eqn:Htable.
  - split; [|by eexists].
    intros _.
    destruct (proj1 Hp ltac:(by eexists)) as [? ?].
    destruct (proj1 Hxs ltac:(by eexists)) as [? ?].
    destruct (proj1 Hys ltac:(by eexists)) as [_ ?].
    destruct (proj1 Hws ltac:(by eexists)) as [_ ?].
    destruct (proj1 Hhs ltac:(by eexists)) as [_ ?].
    destruct (proj1 Hcs ltac:(by eexists)) as [_ ?].
    destruct (proj1 Hsx ltac:(by eexists)) as [_ ?].
    destruct (proj1 Hsy ltac:(by eexists)) as [_ ?].
    destruct (proj1 Hsr ltac:(by eexists)) as [_ ?].
    split; [done|]. split; [done|]. split; [lia|].
    by repeat (split; [done|]).
  - exfalso. apply copyOrFillZero_length in Hcodes.
    assert (is_Some (initializeCodeToKeyIndex keys codes)) as [? ?]; [|congruence].
    unfold initializeCodeToKeyIndex.
    apply initializeCodeToKeyIndex_loop_is_Some, Forall_seqZ.
    intros i Hi. apply read_Some. lia.
Qed.

Lemma cell_size_ceiling keyboardSize gridSize cellSize :
  0 < keyboardSize -> 0 < gridSize -> Int32.in_range (keyboardSize + gridSize) ->
  Int32.div (Int32.sub (Int32.add keyboardSize gridSize) 1) gridSize = Some cellSize ->
  (cellSize - 1) * gridSize < keyboardSize <= cellSize * gridSize.
Proof.
  intros Hk Hg Hr. unfold Int32.add, Int32.sub.
  rewrite (wrap_in_range (keyboardSize + gridSize)) by done.
  assert (Int32.in_range (keyboardSize + gridSize - 1)) as Hr'
    by (unfold Int32.in_range, Int32.min_signed, Int32.max_signed in *; lia).
  rewrite wrap_in_range by done. rewrite div_pos by done.
  intros [= <-].
  pose proof (Z.quot_rem' (keyboardSize + gridSize - 1) gridSize) as Hqr.
  pose proof (Z.rem_bound_pos (keyboardSize + gridSize - 1) gridSize ltac:(lia) Hg).
  nia.
Qed.

(** An object built from positive dimensions that do not overflow satisfies
    the invariant; its cell sizes are the keyboard's dimensions divided by
    the grid's, rounded up; it has at most [MAX_KEY_COUNT_IN_A_KEYBOARD]
    keys; and its proximity array is the grid's part of the array passed
    in. *)
Theorem constructed_object_invariant pi :
  built = Returned pi ->
  0 < maxProximityCharsSize -> 0 < gridWidth -> 0 < gridHeight ->
  0 < keyboardWidth -> 0 < keyboardHeight ->
  Int32.in_range (keyboardWidth + gridWidth) ->
  Int32.in_range (keyboardHeight + gridHeight) ->
  gridWidth * gridHeight * maxProximityCharsSize <= Int32.max_signed ->
  0 <= MAX_CHAR_CODE -> NOT_AN_INDEX < 0 ->
  (forall c, getAdditionalCharsSize localeStr c
             <= Z.of_nat (length (getAdditionalChars localeStr c))) ->
  well_formed pi
  /\ (CELL_WIDTH pi - 1) * gridWidth < keyboardWidth <= CELL_WIDTH pi * gridWidth
  /\ (CELL_HEIGHT pi - 1) * gridHeight < keyboardHeight <= CELL_HEIGHT pi * gridHeight
  /\ KEY_COUNT pi <= MAX_KEY_COUNT_IN_A_KEYBOARD /\ KEY_COUNT pi <= keyCount
  /\ mProximityCharsArray pi
     = take (Z.to_nat (gridWidth * gridHeight * maxProximityCharsSize)) proximityCharsArray.
Proof.
  intros Hbuilt Hmax Hgw Hgh Hkw Hkh Hwr Hhr Hfit Hcode Hnot Hadd.
  pose proof (new_ProximityInfo_well_formed _ _ _ _ _ _ _ _ _ _ _ _ _ _ _ _ _ pi Hbuilt
                Hmax Hgw Hgh Hkw Hkh Hwr Hhr Hfit Hcode Hnot Hadd) as Hwf.
  destruct (new_ProximityInfo_fields pi Hbuilt)
    as (_ & _ & _ & Hcw & Hch & Hkeys & Hprox & _).
  split; [done|].
  split; [by apply cell_size_ceiling|].
  split; [by apply cell_size_ceiling|].
  split; [lia|]. split; [lia|].
  assert (gridLength = gridWidth * gridHeight * maxProximityCharsSize) as Hlen.
  { unfold Int32.mul. rewrite (wrap_in_range (gridWidth * gridHeight)).
    - apply wrap_in_range.
      unfold Int32.in_range, Int32.min_signed, Int32.max_signed in *. nia.
    - unfold Int32.in_range, Int32.min_signed, Int32.max_signed in *. nia. }
  rewrite Hlen in Hprox. unfold copyOrFillZero in Hprox.
  destruct (_ && _); [|done]. by injection Hprox as <-.
Qed.

(** On such an object every point of the keyboard falls into a grid cell
    whose code list lies inside the proximity array, and neither
    [hasSpaceProximity] nor [calculateNearbyKeyCodes] faults there. *)
Theorem keyboard_points_resolve pi x y primaryKey m0 :
  built = Returned pi ->
  2 <= maxProximityCharsSize -> 0 < gridWidth -> 0 < gridHeight ->
  0 < keyboardWidth -> 0 < keyboardHeight ->
  Int32.in_range (keyboardWidth + gridWidth) ->
  Int32.in_range (keyboardHeight + gridHeight) ->
  gridWidth * gridHeight * maxProximityCharsSize <= Int32.max_signed ->
  0 <= MAX_CHAR_CODE -> NOT_AN_INDEX < 0 ->
  (forall c, getAdditionalCharsSize localeStr c
             <= Z.of_nat (length (getAdditionalChars localeStr c))) ->
  0 <= x < keyboardWidth -> 0 <= y < keyboardHeight ->
  on_grid pi x y
  /\ (exists startIndex,
        getStartIndexFromCoordinates pi x y = Some startIndex
        /\ 0 <= startIndex
        /\ startIndex + MAX_PROXIMITY_CHARS_SIZE pi
           <= Z.of_nat (length (mProximityCharsArray pi)))
  /\ (exists b, snd (hasSpaceProximity pi x y) = Returned b)
  /\ snd (calculateNearbyKeyCodes pi x y primaryKey m0) <> Fault.
Proof.
  intros Hbuilt Hmax Hgw Hgh Hkw Hkh Hwr Hhr Hfit Hcode Hnot Hadd Hx Hy.
  pose proof (new_ProximityInfo_well_formed _ _ _ _ _ _ _ _ _ _ _ _ _ _ _ _ _ pi Hbuilt
                ltac:(lia) Hgw Hgh Hkw Hkh Hwr Hhr Hfit Hcode Hnot Hadd) as Hwf.
  destruct (new_ProximityInfo_fields pi Hbuilt)
    as (HMAX & HGW & HGH & Hcw & Hch & _).
  pose proof (cell_size_ceiling _ _ _ Hkw Hgw Hwr Hcw) as Hcw'.
  pose proof (cell_size_ceiling _ _ _ Hkh Hgh Hhr Hch) as Hch'.
  assert (on_grid pi x y) as Hg.
  { apply non_negative_on_grid; try apply Hwf; rewrite ?HGW, ?HGH; try lia;
      unfold Int32.in_range, Int32.min_signed, Int32.max_signed in *; lia. }
  pose proof (cell_index_range pi x y Hg) as Hc.
  split; [done|]. split; [|split].
  - exists (cell_index pi x y * MAX_PROXIMITY_CHARS_SIZE pi).
    split; [by apply getStartIndexFromCoordinates_on_grid|].
    rewrite (wf_grid_length pi Hwf). pose proof (wf_max pi Hwf). nia.
  - rewrite hasSpaceProximity_on_grid by (done || lia). by eexists.
  - rewrite (calculateNearbyKeyCodes_on_grid pi x y primaryKey m0 Hwf ltac:(lia) Hg).
    cbv [snd]. destruct (_ <? _); [done|].
    unfold exit_when_full, assert_false. by destruct DEBUG_DICT, NDEBUG.
Qed.

(** When the keyboard's width (or height) is 0, or negative but above minus
    the grid's, the cell width (or height) of the constructed object is 0;
    every [calculateNearbyKeyCodes] then faults on the division right after
    writing the primary code, and so does every [hasSpaceProximity] at
    non-negative coordinates. *)
Theorem degenerate_keyboard_faults pi :
  built = Returned pi ->
  0 < gridWidth -> 0 < gridHeight -> Int32.in_range gridWidth -> Int32.in_range gridHeight ->
  1 - gridWidth <= keyboardWidth <= 0 \/ 1 - gridHeight <= keyboardHeight <= 0 ->
  (CELL_WIDTH pi = 0 \/ CELL_HEIGHT pi = 0)
  /\ (forall x y primaryKey m0,
        calculateNearbyKeyCodes pi x y primaryKey m0 = (<[0 := primaryKey]> m0, Fault))
  /\ (forall x y, 0 <= x -> 0 <= y -> hasSpaceProximity pi x y = ([], Fault)).
Proof.
  intros Hbuilt Hgw Hgh Hgwr Hghr Hzero.
  destruct (new_ProximityInfo_fields pi Hbuilt) as (_ & _ & _ & Hcw & Hch & _).
  assert (forall k g c, 0 < g -> Int32.in_range g -> 1 - g <= k <= 0 ->
            Int32.div (Int32.sub (Int32.add k g) 1) g = Some c -> c = 0) as Hcell.
  { intros k g c Hg Hr Hk. unfold Int32.add, Int32.sub.
    rewrite (wrap_in_range (k + g))
      by (unfold Int32.in_range, Int32.min_signed, Int32.max_signed in *; lia).
    rewrite wrap_in_range
      by (unfold Int32.in_range, Int32.min_signed, Int32.max_signed in *; lia).
    rewrite div_pos
      by (done || unfold Int32.in_range, Int32.min_signed, Int32.max_signed in *; lia).
    intros [= <-]. apply Z.quot_small. lia. }
  assert (CELL_WIDTH pi = 0 \/ CELL_HEIGHT pi = 0) as Hcells.
  { destruct Hzero as [Hk|Hk]; [left|right].
    - exact (Hcell _ _ _ Hgw Hgwr Hk Hcw).
    - exact (Hcell _ _ _ Hgh Hghr Hk Hch). }
  assert (forall x y, getStartIndexFromCoordinates pi x y = None) as Hstart.
  { intros x y. unfold getStartIndexFromCoordinates.
    destruct Hcells as [-> | ->].
    - change (Int32.div x 0) with (@None Z). by destruct (Int32.div y _).
    - by change (Int32.div y 0) with (@None Z). }
  split; [done|]. split.
  - intros x y primaryKey m0. unfold calculateNearbyKeyCodes. by rewrite Hstart.
  - intros x y Hx Hy. unfold hasSpaceProximity. rewrite Hstart.
    by destruct (Z.ltb_spec x 0), (Z.ltb_spec y 0); try lia.
Qed.

End arguments.

End constructed.

(** ** More on [squaredDistanceToEdge], on keyboards without keys, and on the log *)

Section further.

Context `{Defines}.
Variable pi : ProximityInfo.

Local Abbreviation MAX := (MAX_PROXIMITY_CHARS_SIZE pi).

Lemma wrap_multiple a b k : a = b + k * 2 ^ 32 -> Int32.wrap a = Int32.wrap b.
Proof.
  intros ->. unfold Int32.wrap.
  replace (b + k * 2 ^ 32 + 2 ^ 31) with (b + 2 ^ 31 + k * 2 ^ 32) by lia.
  by rewrite Z_mod_plus_full.
Qed.

Lemma wrap_offset a : exists k, Int32.wrap a = a + k * 2 ^ 32.
Proof.
  exists (- ((a + 2 ^ 31) / 2 ^ 32)). unfold Int32.wrap.
  rewrite Z.mod_eq by lia. lia.
Qed.

(** For a key id that is non-negative and in range and a key whose right and
    bottom edges are representable, [squaredDistanceToEdge] returns the
    squared distance from the point to its clamp onto the rectangle reduced
    modulo 2^32 into the range of [int]: beyond 46340 pixels the result is
    not the distance any more. *)
Theorem squaredDistanceToEdge_modulo keyId x y left' top width height :
  0 <= keyId ->
  read (mKeyXCoordinates pi) keyId = Some left' ->
  read (mKeyYCoordinates pi) keyId = Some top ->
  read (mKeyWidths pi) keyId = Some width ->
  read (mKeyHeights pi) keyId = Some height ->
  Int32.in_range (left' + width) -> Int32.in_range (top + height) ->
  let dx := x - clamp left' (left' + width) x in
  let dy := y - clamp top (top + height) y in
  squaredDistanceToEdge pi keyId x y = Some (Int32.wrap (dx * dx + dy * dy)).
Proof.
  intros Hid Hx Hy Hw Hh Hr Hb dx dy.
  unfold squaredDistanceToEdge.
  destruct (Z.ltb_spec keyId 0); [lia|].
  rewrite Hx, Hy, Hw, Hh.
  replace (Int32.add left' width) with (left' + width)
    by (symmetry; apply wrap_in_range; exact Hr).
  replace (Int32.add top height) with (top + height)
    by (symmetry; apply wrap_in_range; exact Hb).
  fold (clamp left' (left' + width) x) (clamp top (top + height) y).
  unfold Int32.sub. fold dx dy. unfold Int32.mul, Int32.add. f_equal.
  destruct (wrap_offset dx) as [kx ->], (wrap_offset dy) as [ky ->].
  destruct (wrap_offset ((dx + kx * 2 ^ 32) * (dx + kx * 2 ^ 32))) as [kxx ->].
  destruct (wrap_offset ((dy + ky * 2 ^ 32) * (dy + ky * 2 ^ 32))) as [kyy ->].
  apply (wrap_multiple _ _
           (2 * dx * kx + kx * kx * 2 ^ 32 + kxx + 2 * dy * ky + ky * ky * 2 ^ 32 + kyy)).
  lia.
Qed.

Lemma filter_qualifies (P : Z -> Prop) `{!forall c, Decision (P c)} x y primaryKey :
  (forall c, qualifies pi x y primaryKey c = Some true <-> P c) ->
  forall cell, grid_codes pi x y primaryKey cell = filter P cell.
Proof.
  intros Hiff. unfold grid_codes. induction cell as [|c cell IH]; [done|].
  destruct (decide (P c)) as [HP|HP].
  - rewrite !filter_cons_True by (done || by apply Hiff). by rewrite IH.
  - rewrite !filter_cons_False by (done || by rewrite Hiff). done.
Qed.

(** On an object without keys ([KEY_COUNT] 0) the admission of a cell code
    depends neither on the code nor on any key geometry: either every code of
    the cell that is not below the space code and is not the primary code
    follows the primary code, in cell order, or none does, according to
    [isOnKey] at [NOT_AN_INDEX] and to whether
    [MOST_COMMON_KEY_WIDTH_SQUARE] exceeds 1. *)
Theorem no_keys_all_or_nothing x y primaryKey m0 :
  KEY_COUNT pi = 0 -> well_formed pi -> 2 <= MAX -> on_grid pi x y ->
  let cell := grid_cell pi (cell_index pi x y) in
  let accept := isOnKey pi NOT_AN_INDEX x y || (1 <? MOST_COMMON_KEY_WIDTH_SQUARE pi) in
  let near := filter (fun c => accept = true /\ KEYCODE_SPACE <= c /\ c <> primaryKey) cell in
  grid_codes pi x y primaryKey cell = near
  /\ (accept = false -> near = [])
  /\ forall i c, near !! i = Some c -> 1 + Z.of_nat i < MAX ->
       fst (calculateNearbyKeyCodes pi x y primaryKey m0) !! (1 + Z.of_nat i) = Some c.
Proof.
  intros Hkeys Hwf Hmax Hg cell accept near.
  assert (grid_codes pi x y primaryKey cell = near) as Hnear.
  { assert (forall c, getKeyIndex pi c = Some NOT_AN_INDEX) as Hindex
      by (intros c; unfold getKeyIndex; by rewrite Hkeys).
    assert (squaredDistanceToEdge pi NOT_AN_INDEX x y = Some 1) as Hdist.
    { unfold squaredDistanceToEdge. pose proof (wf_not_an_index pi Hwf).
      by destruct (Z.ltb_spec NOT_AN_INDEX 0); [|lia]. }
    apply filter_qualifies. intros c. rewrite qualifies_true, Hindex.
    subst accept. rewrite orb_true_iff, Z.ltb_lt. split.
    - intros (? & ? & k & d & [= <-] & Hd & Hor).
      rewrite Hdist in Hd. injection Hd as <-. by repeat split.
    - intros (Hor & ? & ?). repeat split; [done..|].
      by exists NOT_AN_INDEX, 1. }
  split; [done|]. split.
  - intros Hreject. subst near. generalize cell. intros l.
    induction l as [|c l IH]; [done|].
    rewrite filter_cons_False; [exact IH|]. intros (? & _). congruence.
  - intros i c Hi Hroom. pose proof (lookup_lt_Some _ _ _ Hi) as Hlen.
    rewrite (calculateNearbyKeyCodes_on_grid pi x y primaryKey m0 Hwf Hmax Hg).
    fold cell. rewrite candidates_shape, Hnear. cbv [fst].
    rewrite lookup_padded_code by (rewrite ?length_app; simpl; lia).
    replace (Z.to_nat (1 + Z.of_nat i)) with (S i) by lia.
    simpl. by rewrite lookup_app_l by lia.
Qed.

Lemma hasSpaceProximity_loop_log startIndex : forall idx cell,
  Forall2 (fun i c => read (mProximityCharsArray pi) (Int32.add startIndex i) = Some c)
          idx cell ->
  fst (hasSpaceProximity_loop pi startIndex idx)
  = if DEBUG_PROXIMITY_INFO then LogEntry <$> upto_space cell else [].
Proof.
  intros idx cell Hreads.
  induction Hreads as [|i c idx cell Hread _ IH]; simpl.
  - by destruct DEBUG_PROXIMITY_INFO.
  - rewrite Hread. destruct (c =? KEYCODE_SPACE); simpl.
    + by destruct DEBUG_PROXIMITY_INFO.
    + destruct (hasSpaceProximity_loop pi startIndex idx) as [l r]. simpl in *.
      rewrite IH. by destruct DEBUG_PROXIMITY_INFO.
Qed.

Lemma hasSpaceProximity_loop_silent startIndex : forall idx,
  DEBUG_PROXIMITY_INFO = false ->
  fst (hasSpaceProximity_loop pi startIndex idx) = [].
Proof.
  intros idx Hoff. induction idx as [|i idx IH]; simpl; [done|].
  destruct (read _ _) as [c|]; [|done]. rewrite Hoff.
  destruct (c =? KEYCODE_SPACE); [done|].
  destruct (hasSpaceProximity_loop pi startIndex idx) as [l r]. by simpl in *.
Qed.

(** What [hasSpaceProximity] logs.  With both debug switches off it logs
    nothing, whatever the input and however it ends.  With
    [DEBUG_PROXIMITY_INFO] on and a touch point at non-negative coordinates in
    a grid cell, it logs the start index and then the entries of the cell up
    to and including the first space code: the entries after it are not
    read. *)
Theorem hasSpaceProximity_log x y :
  (DEBUG_DICT = false -> DEBUG_PROXIMITY_INFO = false ->
   fst (hasSpaceProximity pi x y) = [])
  /\ (well_formed pi -> on_grid pi x y -> 0 <= x -> 0 <= y ->
      fst (hasSpaceProximity pi x y)
      = if DEBUG_PROXIMITY_INFO
        then LogStartIndex (cell_index pi x y * MAX) x y
             :: (LogEntry <$> upto_space (grid_cell pi (cell_index pi x y)))
        else []).
Proof.
  split.
  - intros Hdict Hprox. unfold hasSpaceProximity. rewrite Hdict, Hprox.
    destruct (_ || _); [done|].
    destruct (getStartIndexFromCoordinates pi x y) as [startIndex|]; [|done].
    pose proof (hasSpaceProximity_loop_silent startIndex (seqZ 0 MAX) Hprox) as Hloop.
    destruct (hasSpaceProximity_loop _ _ _) as [l r]. simpl in *. by rewrite Hloop.
  - intros Hwf Hg Hx Hy. unfold hasSpaceProximity.
    destruct (Z.ltb_spec x 0); [lia|]. destruct (Z.ltb_spec y 0); [lia|]. simpl.
    rewrite (getStartIndexFromCoordinates_on_grid pi Hwf x y Hg).
    pose proof (cell_index_range pi x y Hg) as Hc.
    pose proof (cell_codes_on_grid pi Hwf _ Hc) as Hcell. apply mapM_Some in Hcell.
    pose proof (hasSpaceProximity_loop_log _ _ _ Hcell) as Hloop.
    destruct (hasSpaceProximity_loop _ _ _) as [l r]. simpl in *. rewrite Hloop.
    by destruct DEBUG_PROXIMITY_INFO.
Qed.

End further.

(** ** How the two queries can end, and which cells they read *)

Section endings.

Context `{Defines}.
Variable pi : ProximityInfo.

Local Abbreviation MAX := (MAX_PROXIMITY_CHARS_SIZE pi).

Section exits.

Variable P : outcome unit -> Prop.
Hypothesis Pfault : P Fault.
Hypothesis Pfull : P exit_when_full.

Lemma return_if_full_exit st : flow_exit P (return_if_full pi st).
Proof. unfold return_if_full. by destruct (_ >=? _). Qed.

Lemma for_each_exit body :
  (forall i st, flow_exit P (body i st)) ->
  forall idx st, flow_exit P (for_each body idx st).
Proof.
  intros Hbody idx. induction idx as [|i idx IH]; intros st; simpl; [done|].
  specialize (Hbody i st). destruct (body i st); [by apply IH|done].
Qed.

Lemma grid_body_exit x y primaryKey startIndex i st :
  flow_exit P (grid_body pi x y primaryKey startIndex i st).
Proof.
  unfold grid_body.
  destruct (read _ _); [|done].
  destruct (_ || _); [done|].
  destruct (getKeyIndex _ _); [|done].
  destruct (squaredDistanceToEdge _ _ _ _); [|done].
  destruct (_ || _); [apply return_if_full_exit|done].
Qed.

Lemma additional_body_exit chars j st :
  flow_exit P (additional_body pi chars j st).
Proof.
  unfold additional_body.
  destruct (read _ _); [|done].
  destruct (scan _ _ _ _); [|done].
  destruct (_ <? _); [done|apply return_if_full_exit].
Qed.

Lemma scan_grid_and_additional_exit x y primaryKey startIndex st :
  flow_exit P (scan_grid_and_additional pi x y primaryKey startIndex st).
Proof.
  unfold scan_grid_and_additional.
  pose proof (for_each_exit _ (grid_body_exit x y primaryKey startIndex)
                (seqZ 0 MAX) st) as Hgrid.
  destruct (for_each _ _ st) as [st1|]; [|done].
  destruct (_ >? 0); [|done].
  pose proof (return_if_full_exit
                (push st1 ADDITIONAL_PROXIMITY_CHAR_DELIMITER_CODE)) as Hdelim.
  destruct (return_if_full _ _) as [st2|]; [|done].
  apply for_each_exit. intros. apply additional_body_exit.
Qed.

End exits.

Lemma hasSpaceProximity_loop_ends startIndex : forall idx,
  (exists b, snd (hasSpaceProximity_loop pi startIndex idx) = Returned b)
  \/ snd (hasSpaceProximity_loop pi startIndex idx) = Fault.
Proof.
  induction idx as [|i idx IH]; simpl; [left; by eexists|].
  destruct (read _ _) as [c|]; [|by right].
  destruct (c =? KEYCODE_SPACE); [left; by eexists|].
  by destruct (hasSpaceProximity_loop pi startIndex idx) as [l r].
Qed.

(** Neither query fails an assertion unless [DEBUG_DICT] is on and
    assertions are live: [calculateNearbyKeyCodes] returns, faults, or stops
    at the [assert(false)] of a full list; [hasSpaceProximity] returns a
    value, faults, or stops at the [assert(false)] for a negative
    coordinate. *)
Theorem assertions_only_in_debug_builds x y primaryKey m0 :
  (snd (calculateNearbyKeyCodes pi x y primaryKey m0) = Returned tt
   \/ snd (calculateNearbyKeyCodes pi x y primaryKey m0) = Fault
   \/ (snd (calculateNearbyKeyCodes pi x y primaryKey m0) = AssertFailed
       /\ DEBUG_DICT = true /\ NDEBUG = false))
  /\ ((exists b, snd (hasSpaceProximity pi x y) = Returned b)
      \/ snd (hasSpaceProximity pi x y) = Fault
      \/ (snd (hasSpaceProximity pi x y) = AssertFailed
          /\ DEBUG_DICT = true /\ NDEBUG = false /\ (x < 0 \/ y < 0))).
Proof.
  split.
  - set (P := fun o : outcome unit =>
                o = Returned tt \/ o = Fault
                \/ (o = AssertFailed /\ DEBUG_DICT = true /\ NDEBUG = false)).
    assert (P Fault) as Pfault by (right; by left).
    assert (P exit_when_full) as Pfull.
    { unfold P, exit_when_full, assert_false.
      destruct DEBUG_DICT, NDEBUG; (by left) || (right; right; by repeat split). }
    change (P (snd (calculateNearbyKeyCodes pi x y primaryKey m0))).
    unfold calculateNearbyKeyCodes.
    destruct (getStartIndexFromCoordinates pi x y) as [startIndex|]; [|done].
    destruct (startIndex >=? 0); [|by left].
    pose proof (scan_grid_and_additional_exit P Pfault Pfull x y primaryKey startIndex
                  (push {| inputCodes := m0; insertPos := 0 |} primaryKey)) as Hrun.
    destruct (scan_grid_and_additional _ _ _ _ _ _); [by left|done].
  - unfold hasSpaceProximity.
    destruct (Z.ltb_spec x 0), (Z.ltb_spec y 0); simpl;
      try (unfold assert_false; destruct DEBUG_DICT, NDEBUG;
           (left; by eexists) || (right; right; repeat split; done || lia)).
    destruct (getStartIndexFromCoordinates pi x y) as [startIndex|]; [|by right; left].
    destruct (hasSpaceProximity_loop_ends startIndex (seqZ 0 MAX)) as [[b Hb]|Hf];
      destruct (hasSpaceProximity_loop _ _ _) as [l r]; simpl in *; subst r.
    + left. by eexists.
    + right. by left.
Qed.

(** On a well-formed object two touch points that fall into grid cells get
    the same start index exactly when they are in the same column and the
    same row of the grid; the code lists of different cells do not
    overlap. *)
Theorem start_index_per_cell x y x' y' :
  well_formed pi -> on_grid pi x y -> on_grid pi x' y' ->
  exists s s',
    getStartIndexFromCoordinates pi x y = Some s
    /\ getStartIndexFromCoordinates pi x' y' = Some s'
    /\ (s = s' <-> Z.quot x (CELL_WIDTH pi) = Z.quot x' (CELL_WIDTH pi)
                   /\ Z.quot y (CELL_HEIGHT pi) = Z.quot y' (CELL_HEIGHT pi))
    /\ (s <> s' -> s + MAX <= s' \/ s' + MAX <= s).
Proof.
  intros Hwf Hg Hg'.
  exists (cell_index pi x y * MAX), (cell_index pi x' y' * MAX).
  rewrite !getStartIndexFromCoordinates_on_grid by done.
  pose proof (wf_max pi Hwf) as Hmax.
  destruct Hg as (_ & _ & Hx & Hy), Hg' as (_ & _ & Hx' & Hy').
  unfold cell_index.
  set (c := Z.quot x (CELL_WIDTH pi)) in *. set (c' := Z.quot x' (CELL_WIDTH pi)) in *.
  set (r := Z.quot y (CELL_HEIGHT pi)) in *. set (r' := Z.quot y' (CELL_HEIGHT pi)) in *.
  split; [done|]. split; [done|]. split; [split|].
  - intros Heq.
    assert (r * GRID_WIDTH pi + c = r' * GRID_WIDTH pi + c') as Hidx by nia.
    assert (r = r') by nia. split; lia.
  - by intros [-> ->].
  - intros Hne.
    destruct (Z.lt_trichotomy (r * GRID_WIDTH pi + c) (r' * GRID_WIDTH pi + c'))
      as [Hlt|[Heq|Hgt]]; [left; nia|by rewrite Heq in Hne|right; nia].
Qed.

End endings.

(** ** Instances of the further statements *)

Ltac in_range_by_computation :=
  unfold Int32.in_range, Int32.min_signed, Int32.max_signed; lia.

(** An instance: the group flag byte 0xB4. *)
Lemma group_flag_byte_layout_witness :
  0 <= 0xB4 < 256
  /\ Z.land 0xB4 UnigramDictionary.MASK_GROUP_ADDRESS_TYPE
     = UnigramDictionary.FLAG_GROUP_ADDRESS_TYPE_TWOBYTES.
Proof.
  split; [lia|].
  destruct (group_flag_byte_layout 0xB4 ltac:(lia)) as [[Ht|[Ht|[Ht|Ht]]] _];
    try (vm_compute in Ht; discriminate).
  exact Ht.
Defined.

(** An instance: the attribute flag byte 0x9A. *)
Lemma attribute_flag_byte_layout_witness :
  0 <= 0x9A < 256
  /\ 0 <= Z.land 0x9A UnigramDictionary.MASK_ATTRIBUTE_FREQUENCY <= 15.
Proof.
  split; [lia|].
  exact (proj1 (proj2 (proj2 (attribute_flag_byte_layout 0x9A ltac:(lia))))).
Defined.

(** An instance: 'B' on [two_keys] is looked up as 'b', the code of key 1. *)
Lemma getKeyIndex_finds_last_key_witness :
  let pi := two_keys 4 20 [97; 98; -1; -1] in
  initializeCodeToKeyIndex (H := release) (KEY_COUNT pi) (mKeyCharCodes pi)
  = Some (mCodeToKeyIndex pi)
  /\ exists k, getKeyIndex (H := release) pi 66 = Some k.
Proof.
  cbv zeta.
  assert (initializeCodeToKeyIndex (H := release) 2 [97; 98]
          = Some (mCodeToKeyIndex (two_keys 4 20 [97; 98; -1; -1]))) as Hinit
    by (vm_compute; reflexivity).
  split; [exact Hinit|].
  destruct (getKeyIndex_finds_last_key (H := release) (two_keys 4 20 [97; 98; -1; -1])
              66 Hinit) as (k & Hk & _).
  by exists k.
Defined.

(** An instance: [two_keys] as the constructor builds it. *)
Lemma constructed_object_invariant_witness :
  well_formed (H := release) (two_keys 4 20 [97; 98; -1; -1])
  /\ (CELL_WIDTH (two_keys 4 20 [97; 98; -1; -1]) - 1) * 1 < 20
     <= CELL_WIDTH (two_keys 4 20 [97; 98; -1; -1]) * 1.
Proof.
  destruct (constructed_object_invariant (H := release) "en" 4 20 10 1 1 20
              [97; 98; -1; -1] 2
              (Some [0; 10]) (Some [0; 0]) (Some [10; 10]) (Some [10; 10]) (Some [97; 98])
              None None None
              (two_keys 4 20 [97; 98; -1; -1]) new_two_keys
              ltac:(lia) ltac:(lia) ltac:(lia) ltac:(lia) ltac:(lia)
              ltac:(in_range_by_computation) ltac:(in_range_by_computation)
              ltac:(unfold Int32.max_signed; lia) ltac:(simpl; lia) ltac:(simpl; lia)
              ltac:(intros c; simpl; lia)) as (Hwf & Hceil & _).
  by split.
Defined.

(** An instance: the point (19,9), the last of the keyboard of [two_keys]. *)
Lemma keyboard_points_resolve_witness :
  on_grid (two_keys 4 20 [97; 98; -1; -1]) 19 9
  /\ snd (calculateNearbyKeyCodes (H := release) (two_keys 4 20 [97; 98; -1; -1])
            19 9 98 ∅) <> Fault.
Proof.
  destruct (keyboard_points_resolve (H := release) "en" 4 20 10 1 1 20
              [97; 98; -1; -1] 2
              (Some [0; 10]) (Some [0; 0]) (Some [10; 10]) (Some [10; 10]) (Some [97; 98])
              None None None
              (two_keys 4 20 [97; 98; -1; -1]) 19 9 98 ∅ new_two_keys
              ltac:(lia) ltac:(lia) ltac:(lia) ltac:(lia) ltac:(lia)
              ltac:(in_range_by_computation) ltac:(in_range_by_computation)
              ltac:(unfold Int32.max_signed; lia) ltac:(simpl; lia) ltac:(simpl; lia)
              ltac:(intros c; simpl; lia) ltac:(lia) ltac:(lia))
    as (Hg & _ & _ & Hrun).
  by split.
Defined.

(** An instance: a keyboard of width 0 under a grid of 4 columns. *)
Lemma degenerate_keyboard_faults_witness :
  exists pi,
    snd (new_ProximityInfo (H := release) "en" 4 0 10 4 1 0
           (replicate 16 (-1)) 0 None None None None None None None None) = Returned pi
    /\ calculateNearbyKeyCodes (H := release) pi 5 5 97 ∅ = (<[0 := 97]> ∅, Fault).
Proof.
  destruct (snd (new_ProximityInfo (H := release) "en" 4 0 10 4 1 0
                   (replicate 16 (-1)) 0 None None None None None None None None))
    as [pi| |] eqn:Hpi; [|vm_compute in Hpi; discriminate..].
  exists pi. split; [reflexivity|].
  destruct (degenerate_keyboard_faults (H := release) "en" 4 0 10 4 1 0
              (replicate 16 (-1)) 0 None None None None None None None None pi Hpi
              ltac:(lia) ltac:(lia) ltac:(in_range_by_computation)
              ltac:(in_range_by_computation) ltac:(left; lia)) as (_ & Hrun & _).
  apply Hrun.
Defined.

(** An instance: the point 65536 pixels to the right of the key of
    [one_key] has the squared distance 0. *)
Lemma squaredDistanceToEdge_modulo_witness :
  squaredDistanceToEdge one_key 0 65546 5 = Some 0.
Proof.
  apply (squaredDistanceToEdge_modulo one_key 0 65546 5 0 0 10 10);
    try reflexivity; try lia; in_range_by_computation.
Defined.

Lemma no_geometry_well_formed n prox :
  0 < n -> Z.of_nat (length prox) = n -> n <= Int32.max_signed ->
  well_formed (H := release) (no_geometry n prox).
Proof.
  intros Hn Hlen Hfit.
  split; simpl; try lia; try done.
  apply (bool_decide_unpack _). vm_compute. exact I.
Qed.

(** An instance: without keys and with [isOnKey] true at -1, 'b' follows the
    primary code 'a'. *)
Lemma no_keys_all_or_nothing_witness :
  let pi := no_geometry 4 [97; 98; -1; -1] in
  KEY_COUNT pi = 0 /\ well_formed (H := release) pi /\ on_grid pi 5 5
  /\ fst (calculateNearbyKeyCodes (H := release) pi 5 5 97 ∅) !! 1 = Some 98.
Proof.
  cbv zeta.
  assert (well_formed (H := release) (no_geometry 4 [97; 98; -1; -1])) as Hwf
    by (apply no_geometry_well_formed; [lia|reflexivity|unfold Int32.max_signed; lia]).
  assert (on_grid (no_geometry 4 [97; 98; -1; -1]) 5 5) as Hg by on_grid_by_computation.
  destruct (no_keys_all_or_nothing (H := release) (no_geometry 4 [97; 98; -1; -1])
              5 5 97 ∅ eq_refl Hwf ltac:(simpl; lia) Hg) as (_ & _ & Hnear).
  refine (conj eq_refl (conj Hwf (conj Hg _))).
  apply (Hnear 0%nat 98); [reflexivity|simpl; lia].
Defined.

(** An instance: the log of a build with [DEBUG_PROXIMITY_INFO] on, for a
    cell whose second entry is the space code. *)
Lemma hasSpaceProximity_log_witness :
  fst (hasSpaceProximity (H := trace_build) (two_keys 4 20 [97; 32; 98; -1]) 5 5)
  = [LogStartIndex 0 5 5; LogEntry 97; LogEntry 32].
Proof.
  assert (well_formed (H := trace_build) (two_keys 4 20 [97; 32; 98; -1])) as Hwf.
  { split; simpl; try lia; try done; try (unfold Int32.max_signed; lia).
    apply (bool_decide_unpack _). vm_compute. exact I. }
  assert (on_grid (two_keys 4 20 [97; 32; 98; -1]) 5 5) as Hg by on_grid_by_computation.
  etrans;
    [exact (proj2 (hasSpaceProximity_log (H := trace_build)
                     (two_keys 4 20 [97; 32; 98; -1]) 5 5)
              Hwf Hg ltac:(lia) ltac:(lia))|].
  vm_compute. reflexivity.
Defined.

(** An instance: the points (5,5) and (15,5) of [two_cells] lie in different
    columns and read the code lists at 0 and at 4. *)
Lemma start_index_per_cell_witness :
  well_formed (H := release) two_cells /\ on_grid two_cells 5 5 /\ on_grid two_cells 15 5
  /\ exists s s',
       getStartIndexFromCoordinates two_cells 5 5 = Some s
       /\ getStartIndexFromCoordinates two_cells 15 5 = Some s'
       /\ (s + 4 <= s' \/ s' + 4 <= s).
Proof.
  assert (well_formed (H := release) two_cells) as Hwf.
  { split; simpl; try lia; try done; try (unfold Int32.max_signed; lia).
    apply (bool_decide_unpack _). vm_compute. exact I. }
  assert (on_grid two_cells 5 5) as Hg by on_grid_by_computation.
  assert (on_grid two_cells 15 5) as Hg' by on_grid_by_computation.
  destruct (start_index_per_cell (H := release) two_cells 5 5 15 5 Hwf Hg Hg')
    as (s & s' & Hs & Hs' & _ & Hapart).
  refine (conj Hwf (conj Hg (conj Hg' _))).
  exists s, s'. refine (conj Hs (conj Hs' _)).
  apply Hapart. vm_compute in Hs, Hs'. congruence.
Defined.
